(** * The Emacs Lisp documentation domain (doc/eldomain.py)

    A shallow embedding of the symbol registry, the target naming scheme and
    the cross-reference resolution of [doc/eldomain.py], a Sphinx domain
    written for Python 2 ([ifilter], [iteritems]).

    Conventions of the embedding:
    - text is a [string]: the characters of the model are the code points
      below 256 of the Unicode text that the host hands to directives and
      roles;
    - a [dict] is a finite map ([gmap]); the iteration order of a Python 2
      dict is unspecified, the model iterates in the order of [map_to_list]
      and no statement below depends on which order that is;
    - a raised exception is the [Raise] alternative of [result];
    - the mutable objects the code writes to (the domain data, the ids of the
      document being read, the reporter, the index node) are fields of an
      explicit state that every operation takes and returns. *)

From Stdlib Require Import Ascii String List.
From stdpp Require Import base option list strings gmap fin_maps.

Local Open Scope string_scope.
Local Open Scope list_scope.

(** ** Exceptions *)

Inductive exn : Type :=
  | KeyError (key : string)
  | ValueError (msg : string)
  | IndexError (msg : string)
  | AttributeError (msg : string).

Inductive result (A : Type) : Type :=
  | Ok (a : A)
  | Raise (e : exn).
Arguments Ok {A} a.
Arguments Raise {A} e.

(** Sequencing: the first exception raised ends the computation. *)
#[global] Instance result_ret : MRet result := λ A a, Ok a.
#[global] Instance result_bind : MBind result := λ A B k r,
  match r with
  | Ok a => k a
  | Raise e => Raise e
  end.

#[global] Instance result_fmap : FMap result := λ A B f r,
  match r with
  | Ok a => Ok (f a)
  | Raise e => Raise e
  end.

Definition raises {A : Type} (r : result A) : Prop :=
  match r with
  | Ok _ => False
  | Raise _ => True
  end.

(** ** String primitives of Python used by the module *)

Module Str.

(** [sep.join(l)] *)
Definition join (sep : string) (l : list string) : string :=
  String.concat sep l.

(** [s.startswith('~')] *)
Definition startswith_tilde (s : string) : bool :=
  match s with
  | String "~" _ => true
  | _ => false
  end.

(** [s.lstrip('~')]: drop every leading tilde. *)
Fixpoint lstrip_tilde (s : string) : string :=
  match s with
  | String "~" rest => lstrip_tilde rest
  | _ => s
  end.

(** The part of [s] before its first space, and the part after it, when
    [s] has a space. *)
Fixpoint cut_space (s : string) : option (string * string) :=
  match s with
  | EmptyString => None
  | String " " rest => Some (EmptyString, rest)
  | String c rest =>
      match cut_space rest with
      | Some (before, after) => Some (String c before, after)
      | None => None
      end
  end.

(** [s.split(' ', 1)]: at most one split, at the first space. *)
Definition split_space_once (s : string) : list string :=
  match cut_space s with
  | Some (before, after) => [before; after]
  | None => [s]
  end.

(** The characters [split()] treats as white space in a Unicode text,
    among the code points below 256: U+0009 to U+000D, U+001C to U+001F,
    the space, U+0085 and U+00A0. *)
Definition is_space (c : ascii) : bool :=
  match c with
  | " " | "009" | "010" | "011" | "012" | "013"
  | "028" | "029" | "030" | "031" | "133" | "160" => true
  | _ => false
  end%char.

(** [s.split()]: the maximal runs of characters that are not white space.
    [word] holds the run being read, in reverse. *)
Fixpoint split_words (word : list ascii) (s : string) : list string :=
  let flush (rest : list string) :=
    match word with
    | [] => rest
    | _ => string_of_list_ascii (rev word) :: rest
    end in
  match s with
  | EmptyString => flush []
  | String c s' =>
      if is_space c then flush (split_words [] s')
      else split_words (c :: word) s'
  end.

Definition split (s : string) : list string := split_words [] s.

Definition is_lower (c : ascii) : bool :=
  let n := nat_of_ascii c in (97 <=? n)%nat && (n <=? 122)%nat.
Definition is_upper (c : ascii) : bool :=
  let n := nat_of_ascii c in (65 <=? n)%nat && (n <=? 90)%nat.
Definition to_upper (c : ascii) : ascii :=
  if is_lower c then ascii_of_nat (nat_of_ascii c - 32) else c.
Definition to_lower (c : ascii) : ascii :=
  if is_upper c then ascii_of_nat (nat_of_ascii c + 32) else c.

(** [s.title()] on an ASCII string: a letter that follows a letter is
    lowered, any other letter is raised. *)
Fixpoint title_from (previous_is_cased : bool) (s : string) : string :=
  match s with
  | EmptyString => EmptyString
  | String c s' =>
      if is_lower c then
        String (if previous_is_cased then c else to_upper c) (title_from true s')
      else if is_upper c then
        String (if previous_is_cased then to_lower c else c) (title_from true s')
      else String c (title_from false s')
  end.

Definition title (s : string) : string := title_from false s.

(** Truth value of a string: [''] is false. *)
Definition truthy (s : string) : bool :=
  match s with
  | EmptyString => false
  | _ => true
  end.

End Str.

(** ** Target names *)

(** [make_target(scope, name)]: ['el.{0}.{1}'.format(scope, name)]. *)
Definition make_target (scope name : string) : string :=
  "el." +:+ scope +:+ "." +:+ name.

(** ** Object types *)

(** [ObjType(lname, *roles, **attrs)] of the host, with the two attributes
    the domain gives to each of its object types. *)
Record ObjType : Type := mkObjType {
  lname : string;
  roles_of : list string;
  scope : string;
  searchprio : nat
}.

(** [EmacsLispDomain.object_types]; [None] is a key the dict does not have. *)
Definition object_types (objtype : string) : option ObjType :=
  if String.eqb objtype "function" then
    Some (mkObjType "function" ["function"] "function" 0)
  else if String.eqb objtype "macro" then
    Some (mkObjType "macro" ["macro"] "function" 0)
  else if String.eqb objtype "command" then
    Some (mkObjType "command" ["command"] "function" 1)
  else if String.eqb objtype "variable" then
    Some (mkObjType "variable" ["variable"] "variable" 0)
  else if String.eqb objtype "option" then
    Some (mkObjType "user option" ["option"] "variable" 1)
  else if String.eqb objtype "hook" then
    Some (mkObjType "hook" ["hook"] "variable" 0)
  else if String.eqb objtype "face" then
    Some (mkObjType "face" ["face"] "face" 0)
  else if String.eqb objtype "cl-struct" then
    Some (mkObjType "CL struct" ["cl-struct"] "struct" 0)
  else if String.eqb objtype "cl-slot" then
    Some (mkObjType "slot" ["cl-slot"] "function" 0)
  else None.

(** [self.object_types[objtype]] *)
Definition object_types_getitem (objtype : string) : result ObjType :=
  match object_types objtype with
  | Some ot => Ok ot
  | None => Raise (KeyError objtype)
  end.

(** The names under which [EmacsLispDomain.roles] registers a
    cross-reference role ([var] and [varcode] are markup roles and create no
    pending reference). *)
Definition xref_roles : list string :=
  ["symbol"; "function"; "macro"; "command"; "variable"; "option"; "hook";
   "face"; "cl-struct"; "cl-slot"].

(** The scopes the object types use, in the order in which [resolve_xref]
    tries them for a generic reference. *)
Definition scope_priority : list string :=
  ["function"; "variable"; "face"; "struct"].

(** ** The registry *)

(** [data['symbols']]: fullname -> scope -> (docname, objtype). *)
Abbreviation scopes_dict := (gmap string (string * string)).
Abbreviation registry := (gmap string (gmap string (string * string))).

(** Exact lookup of a (name, scope) pair. *)
Definition lookup_symbol (symbols : registry) (name scope : string)
  : option (string * string) :=
  symbols !! name ≫= λ scopes : scopes_dict, scopes !! scope.

(** The keys of a dict, in iteration order. *)
Definition dict_keys {V : Type} (d : gmap string V) : list string :=
  (map_to_list d).*1.

(** ** Cross-reference resolution *)

(** What [make_refnode(builder, fromdocname, todocname, targetid, child,
    title)] of the host is called with. *)
Record refnode : Type := mkRefnode {
  ref_fromdoc : string;
  ref_todoc : string;
  ref_targetid : string;
  ref_child : string;
  ref_title : string
}.

(** A call [env.warn(docname, message, lineno)]. *)
Record warning : Type := mkWarning {
  warn_doc : string;
  warn_message : string;
  warn_line : option nat
}.

Section Resolve.

(** [repr] of a scopes dict, for the message of the [ValueError]. *)
Variable repr_scopes : scopes_dict → string.

(** [next(ifilter(lambda s: s in scopes, [...]), None)] *)
Definition first_scope (scopes : scopes_dict) : option string :=
  List.find (λ s, bool_decide (is_Some (scopes !! s))) scope_priority.

(** [EmacsLispDomain.resolve_xref]: the value returned or the exception
    raised, and the warnings given to [env.warn] on the way. *)
Definition resolve_xref (symbols : registry) (fromdoc objtype target : string)
    (line : option nat) (content : string)
  : result (option refnode) * list warning :=
  match symbols !! target with
  | None => (Raise (KeyError target), [])
  | Some scopes =>
      let chosen : result string * list warning :=
        if String.eqb objtype "symbol" && (1 <? size scopes)%nat then
          match first_scope scopes with
          | Some scope =>
              if Str.truthy scope then
                let message :=
                  "Ambiguous reference to " +:+ target +:+ ", in scopes "
                  +:+ Str.join ", " (dict_keys scopes) +:+ ", using " +:+ scope in
                (Ok scope, [mkWarning fromdoc message line])
              else
                (Raise (ValueError ("Unknown scopes: " +:+ repr_scopes scopes)), [])
          | None =>
              (Raise (ValueError ("Unknown scopes: " +:+ repr_scopes scopes)), [])
          end
        else
          (scope <$> object_types_getitem objtype, [])
      in
      (scope ← chosen.1;
       match scopes !! scope with
       | None => Ok None
       | Some (docname, _) =>
           Ok (Some (mkRefnode fromdoc docname (make_target scope target)
                       content target))
       end,
       chosen.2)
  end.

End Resolve.

(** ** The state the directives and the domain work on *)

(** A call [reporter.warning(message, line=lineno)]. *)
Record report : Type := mkReport {
  report_message : string;
  report_line : nat
}.

(** An entry [(entrytype, text, target, main)] of the index node. *)
Record index_entry : Type := mkIndexEntry {
  entry_type : string;
  entry_text : string;
  entry_target : string;
  entry_main : string
}.

Record build_state : Type := mkState {
  (** [env.docname], the document being read *)
  env_docname : string;
  (** [env.temp_data.get('el:cl-struct')] *)
  env_cl_struct : option string;
  (** the keys of [state.document.ids], of the document being read *)
  doc_ids : gset string;
  (** [env.domaindata['el']['symbols']] *)
  env_symbols : registry;
  (** the warnings given to the reporter, oldest first *)
  env_reports : list report;
  (** [indexnode['entries']], oldest first *)
  env_index : list index_entry
}.

Definition set_cl_struct (v : option string) (st : build_state) : build_state :=
  mkState (env_docname st) v (doc_ids st) (env_symbols st) (env_reports st)
    (env_index st).

(** The children a directive adds to its signature node.  [keep_texinfo]
    is the attribute of that name of an annotation, [false] for a node
    that does not have it. *)
Inductive sig_node : Type :=
  | El_annotation (text : string) (keep_texinfo : bool)
  | Desc_name (text : string).

(** ** Directives *)

(** The classes of the directives. *)
Inductive directive_class : Type :=
  | Class_Symbol
  | Class_Function
  | Class_Command
  | Class_CLStruct
  | Class_CLSlot.

(** [EmacsLispDomain.directives]: the class registered for each directive
    name.  The name of the directive is the [objtype] of its instances. *)
Definition directives (name : string) : option directive_class :=
  if String.eqb name "function" then Some Class_Function
  else if String.eqb name "macro" then Some Class_Function
  else if String.eqb name "command" then Some Class_Command
  else if String.eqb name "variable" then Some Class_Symbol
  else if String.eqb name "option" then Some Class_Symbol
  else if String.eqb name "hook" then Some Class_Symbol
  else if String.eqb name "face" then Some Class_Symbol
  else if String.eqb name "cl-struct" then Some Class_CLStruct
  else if String.eqb name "cl-slot" then Some Class_CLSlot
  else None.

Module EmacsLispCommand.

(** [with_prefix_arg(binding)] with [options] the options of the
    directive. *)
Definition with_prefix_arg (options : gmap string string) (binding : string)
  : string :=
  match options !! "prefix-arg" with
  | Some prefix_arg =>
      if Str.truthy prefix_arg then prefix_arg +:+ " " +:+ binding
      else binding
  | None => binding
  end.

(** [make_type_annotation] of a command: the keys that call it, kept in
    Texinfo. *)
Definition make_type_annotation (options : gmap string string) : sig_node :=
  let keys := with_prefix_arg options "M-x" in
  El_annotation (keys +:+ " ") true.

End EmacsLispCommand.

Module EmacsLispSymbol.

(** [make_type_annotation] of the base class: the titled long name of the
    object type and a space. *)
Definition make_type_annotation (objtype : string) : result sig_node :=
  ot ← object_types_getitem objtype;
  mret (El_annotation (Str.title (lname ot) +:+ " ") false).

(** The call [self.make_type_annotation()] in a directive named [objtype]
    with the options [options]: the method of the class of the directive,
    which only [EmacsLispCommand] overrides. *)
Definition self_make_type_annotation (objtype : string)
    (options : gmap string string) : result sig_node :=
  match directives objtype with
  | Some Class_Command => Ok (EmacsLispCommand.make_type_annotation options)
  | _ => make_type_annotation objtype
  end.

(** [handle_signature(sig, signode)] in a directive named [objtype] with
    the options [options]: the name returned or the exception raised, and
    the signature node afterwards. *)
Definition handle_signature (objtype : string) (options : gmap string string)
    (sig : string) (signode : list sig_node)
  : result string * list sig_node :=
  match Str.split sig with
  | [] => (Raise (IndexError "list index out of range"), signode)
  | name :: arguments =>
      match self_make_type_annotation objtype options with
      | Raise e => (Raise e, signode)
      | Ok annotation =>
          (Ok name, signode ++ [annotation] ++ [Desc_name name])
      end
  end.

Section AddTarget.

(** [env.doc2path] of the host. *)
Variable doc2path : string → string.

(** [add_target_and_index(name, sig, signode)] of a directive for
    [objtype] at line [lineno].  Of the signature node only its id
    matters to the registry: [note_explicit_target] enters it in the ids
    of the document. *)
Definition add_target_and_index (objtype name : string) (lineno : nat)
    (st : build_state) : result unit * build_state :=
  match object_types_getitem objtype with
  | Raise e => (Raise e, st)
  | Ok ot =>
      let emacs_lisp_scope := scope ot in
      let targetname := make_target emacs_lisp_scope name in
      let '(ids, symbols, reports) :=
        if bool_decide (targetname ∈ doc_ids st) then
          (doc_ids st, env_symbols st, env_reports st)
        else
          let symbol_scopes : scopes_dict :=
            default ∅ (env_symbols st !! name) in
          let reports :=
            match symbol_scopes !! emacs_lisp_scope with
            | Some (other_docname, _) =>
                env_reports st ++
                [mkReport ("duplicate object description of " +:+ name
                           +:+ ", " +:+ "other instance in "
                           +:+ doc2path other_docname) lineno]
            | None => env_reports st
            end in
          ({[targetname]} ∪ doc_ids st,
           <[name := <[emacs_lisp_scope := (env_docname st, objtype)]>
                       symbol_scopes]> (env_symbols st),
           reports) in
      let indextext := name +:+ "; Emacs Lisp " +:+ lname ot in
      (Ok (),
       mkState (env_docname st) (env_cl_struct st) ids symbols reports
         (env_index st ++ [mkIndexEntry "pair" indextext targetname ""]))
  end.

End AddTarget.

End EmacsLispSymbol.

Module EmacsLispCLStruct.

(** [before_content]: [names] are the names the signatures returned. *)
Definition before_content (names : list string) (st : build_state)
  : build_state :=
  match names with
  | [] => st
  | name :: _ => set_cl_struct (Some name) st
  end.

(** [after_content]: [del] of a key that is not there raises. *)
Definition after_content (st : build_state) : result unit * build_state :=
  match env_cl_struct st with
  | Some _ => (Ok (), set_cl_struct None st)
  | None => (Raise (KeyError "el:cl-struct"), st)
  end.

End EmacsLispCLStruct.

Module EmacsLispCLSlot.

(** [handle_signature(sig, signode)] with [current_struct] the value of
    [env.temp_data.get('el:cl-struct')] and [options] the options of the
    directive. *)
Definition handle_signature (current_struct : option string)
    (options : gmap string string) (sig : string) (signode : list sig_node)
  : result string * list sig_node :=
  match EmacsLispSymbol.handle_signature "cl-slot" options sig signode with
  | (Raise e, signode') => (Raise e, signode')
  | (Ok name, signode') =>
      match current_struct with
      | Some struct =>
          if Str.truthy struct then (Ok (struct +:+ "-" +:+ name), signode')
          else (Raise (ValueError "Missing containing structure"), signode')
      | None => (Raise (ValueError "Missing containing structure"), signode')
      end
  end.

End EmacsLispCLSlot.

Module EmacsLispSlotXRefRole.

(** The attribute reference [parts.join] on a list: a Python list has the
    methods append, count, extend, index, insert, pop, remove, reverse and
    sort, and no [join] ([join] is a method of strings), so the reference
    raises before anything is called. *)
Definition list_join (parts : list string) (sep : string) : result string :=
  Raise (AttributeError "'list' object has no attribute 'join'").

(** [process_link(env, refnode, has_explicit_title, title, target)] with
    [current_struct] the value of [env.temp_data.get('el:cl-struct')]:
    the pair [(title, target)] returned or the exception raised. *)
Definition process_link (current_struct : option string)
    (has_explicit_title : bool) (title target : string)
  : result (string * string) :=
  let omit_struct := Str.startswith_tilde target in
  let target := Str.lstrip_tilde target in
  let parts := Str.split_space_once target in
  if (1 <? length parts)%nat then
    match parts with
    | [struct; slot] =>
        target ← list_join parts "-";
        let title :=
          if negb has_explicit_title
             && (omit_struct || bool_decide (current_struct = Some struct))
          then slot else title in
        mret (title, target)
    | _ => Raise (ValueError "need more than 1 value to unpack")
    end
  else
    match current_struct with
    | Some struct =>
        if Str.truthy struct then Ok (title, struct +:+ "-" +:+ target)
        else Ok (title, target)
    | None => Ok (title, target)
    end.

End EmacsLispSlotXRefRole.

(** ** Purging a document *)

(** The inner loop of [clear_doc] for one symbol: [items] is the list
    [scopes.items()] and every scope of [docname] is deleted from the dict
    at [symbols[symbol]]. *)
Definition clear_scopes (docname symbol : string)
    (items : list (string * (string * string))) (symbols : registry)
  : registry :=
  foldl (λ (symbols : registry) '(scope, (object_docname, _)),
           if decide (docname = object_docname)
           then alter (delete scope) symbol symbols
           else symbols)
        symbols items.

(** [EmacsLispDomain.clear_doc(docname)]: in Python 2 [items()] is a copy, so
    the deletions do not disturb the iteration. *)
Definition clear_doc (docname : string) (symbols : registry) : registry :=
  foldl (λ (acc : registry) '(symbol, scopes),
           clear_scopes docname symbol (map_to_list scopes) acc)
        symbols (map_to_list symbols).

(** ** A build session *)

(** What the host does to the state during a build, as far as the domain
    is concerned.  Before it reads a document the host purges it from the
    domain data and starts an empty document tree; while it reads it runs
    the directives it meets. *)
Inductive event : Type :=
  | Read (docname : string)
  | Describe (objtype name : string) (lineno : nat)
  | EnterStruct (names : list string)
  | LeaveStruct.

Section Session.

Variable doc2path : string → string.

Definition step (st : build_state) (e : event) : build_state :=
  match e with
  | Read docname =>
      mkState docname None ∅ (clear_doc docname (env_symbols st))
        (env_reports st) []
  | Describe objtype name lineno =>
      (EmacsLispSymbol.add_target_and_index doc2path objtype name lineno st).2
  | EnterStruct names => EmacsLispCLStruct.before_content names st
  | LeaveStruct => (EmacsLispCLStruct.after_content st).2
  end.

Definition run (events : list event) (st : build_state) : build_state :=
  foldl step st events.

(** [initial_data]: no symbol is known when the session starts. *)
Definition initial_state : build_state := mkState "" None ∅ ∅ [] [].

Definition reachable (st : build_state) : Prop :=
  ∃ events, st = run events initial_state.

End Session.

(** * Properties *)

(** Membership in a list that is written out. *)
Ltac in_list := apply list_elem_of_In; simpl; tauto.

(** ** Target names *)

Lemma make_target_inj s1 n1 s2 n2 :
  s1 ∈ scope_priority → s2 ∈ scope_priority →
  make_target s1 n1 = make_target s2 n2 → s1 = s2 ∧ n1 = n2.
Proof.
  unfold scope_priority. rewrite !elem_of_cons, !elem_of_nil.
  intros [->|[->|[->|[->|[]]]]] [->|[->|[->|[->|[]]]]] H;
    unfold make_target in H; simplify_eq/=; done.
Qed.

(** C6: two distinct (scope, name) pairs, with scopes of the closed set
    function, variable, face, struct, never get the same target name. *)
Theorem make_target_injective s1 n1 s2 n2 :
  s1 ∈ scope_priority → s2 ∈ scope_priority →
  (s1, n1) ≠ (s2, n2) → make_target s1 n1 ≠ make_target s2 n2.
Proof.
  intros Hs1 Hs2 Hne Heq.
  destruct (make_target_inj _ _ _ _ Hs1 Hs2 Heq) as [-> ->]. by apply Hne.
Qed.

Lemma make_target_injective_witness :
  "function" ∈ scope_priority ∧ "variable" ∈ scope_priority ∧
  ("function", "foo") ≠ ("variable", "foo") ∧
  make_target "function" "foo" ≠ make_target "variable" "foo".
Proof.
  assert (H1 : "function" ∈ scope_priority) by in_list.
  assert (H2 : "variable" ∈ scope_priority) by in_list.
  assert (H3 : ("function", "foo") ≠ ("variable", "foo")) by discriminate.
  repeat split; try assumption.
  exact (make_target_injective "function" "foo" "variable" "foo" H1 H2 H3).
Defined.

(** ** Cross-reference resolution *)

Lemma find_split {A : Type} (f : A → bool) (l : list A) (x : A) :
  List.find f l = Some x →
  ∃ l1 l2, l = l1 ++ x :: l2 ∧ f x = true ∧ ∀ y, y ∈ l1 → f y = false.
Proof.
  induction l as [|a l IH]; simpl; [discriminate|].
  destruct (f a) eqn:Ha.
  - intros [= ->]. exists [], l. split_and!; [done | done |].
    intros y Hy. by apply elem_of_nil in Hy.
  - intros Hfind. destruct (IH Hfind) as (l1 & l2 & -> & Hx & Hl1).
    exists (a :: l1), l2. split_and!; [done | done |].
    intros y [->|Hy]%elem_of_cons; auto.
Qed.

Lemma first_scope_Some (scopes : scopes_dict) (chosen : string) :
  first_scope scopes = Some chosen →
  ∃ earlier later,
    scope_priority = earlier ++ chosen :: later ∧
    is_Some (scopes !! chosen) ∧
    ∀ s, s ∈ earlier → scopes !! s = None.
Proof.
  intros (l1 & l2 & Heq & Hx & Hl1)%find_split.
  exists l1, l2. split_and!; [done | by apply bool_decide_eq_true in Hx |].
  intros s Hs. apply Hl1, bool_decide_eq_false in Hs.
  by apply eq_None_not_Some.
Qed.

Lemma first_scope_None (scopes : scopes_dict) :
  first_scope scopes = None ↔ ∀ s, s ∈ scope_priority → scopes !! s = None.
Proof.
  unfold first_scope. split.
  - intros Hnone s Hs. apply eq_None_not_Some.
    apply list_elem_of_In in Hs.
    apply (bool_decide_eq_false (is_Some (scopes !! s))).
    exact (List.find_none _ _ Hnone s Hs).
  - intros Hall. destruct (List.find _ _) as [s|] eqn:Hfind; [|done].
    apply List.find_some in Hfind as [Hin Hs].
    apply bool_decide_eq_true in Hs. apply list_elem_of_In in Hin.
    rewrite (Hall s Hin) in Hs. by destruct Hs.
Qed.

Lemma scope_priority_truthy (s : string) :
  s ∈ scope_priority → Str.truthy s = true.
Proof.
  unfold scope_priority. rewrite !elem_of_cons, elem_of_nil.
  by intros [->|[->|[->|[->|[]]]]].
Qed.

Lemma dict_keys_spec {V : Type} (d : gmap string V) (k : string) :
  k ∈ dict_keys d ↔ is_Some (d !! k).
Proof.
  unfold dict_keys. rewrite list_elem_of_fmap. split.
  - intros ([k' v] & -> & Hin). apply elem_of_map_to_list in Hin. by exists v.
  - intros [v Hv]. exists (k, v). split; [done|]. by apply elem_of_map_to_list.
Qed.

(** A target that is not a key of the registry: the subscription
    [self.data\['symbols'\]\[target\]] raises. *)
Lemma resolve_xref_unknown_target repr (symbols : registry)
    fromdoc objtype target line content :
  symbols !! target = None →
  resolve_xref repr symbols fromdoc objtype target line content
  = (Raise (KeyError target), []).
Proof. intros H. unfold resolve_xref. by rewrite H. Qed.

(** C1, on the code: a target that was never registered makes
    [resolve_xref] raise [KeyError], whatever kind is asked for; it does not
    return [None]. *)
Theorem resolve_xref_never_registered repr fromdoc objtype line content :
  resolve_xref repr ∅ fromdoc objtype "flycheck-mode" line content
  = (Raise (KeyError "flycheck-mode"), []).
Proof. by apply resolve_xref_unknown_target. Qed.

(** A kind that is an object type looks up the scope of that object type
    and nothing else. *)
Lemma resolve_xref_concrete repr (symbols : registry) (scopes : scopes_dict)
    fromdoc objtype ot target line content :
  symbols !! target = Some scopes →
  object_types objtype = Some ot →
  resolve_xref repr symbols fromdoc objtype target line content
  = (Ok (match scopes !! scope ot with
         | Some (docname, _) =>
             Some (mkRefnode fromdoc docname (make_target (scope ot) target)
                     content target)
         | None => None
         end), []).
Proof.
  intros Hsym Hot. unfold resolve_xref. rewrite Hsym.
  assert (String.eqb objtype "symbol" = false) as ->.
  { apply String.eqb_neq. intros ->. discriminate Hot. }
  simpl. unfold object_types_getitem. rewrite Hot. simpl.
  by destruct (scopes !! scope ot) as [[??]|].
Qed.

(** C9: a name registered under the variable scope only is not found by a
    reference of kind function. *)
Theorem resolve_xref_scope_mismatch repr (symbols : registry)
    (scopes : scopes_dict) fromdoc target line content :
  symbols !! target = Some scopes →
  (∀ s, is_Some (scopes !! s) ↔ s = "variable") →
  resolve_xref repr symbols fromdoc "function" target line content
  = (Ok None, []).
Proof.
  intros Hsym Honly.
  rewrite (resolve_xref_concrete repr symbols scopes fromdoc "function"
             (mkObjType "function" ["function"] "function" 0)) by done.
  simpl. destruct (scopes !! "function") as [entry|] eqn:Hf; [|done].
  assert (is_Some (scopes !! "function")) as Hsome by (by rewrite Hf).
  apply Honly in Hsome. discriminate Hsome.
Qed.

(** [symbol] is the name of a role and of no object type. *)
Lemma symbol_role_not_object_type :
  "symbol" ∈ xref_roles ∧ object_types "symbol" = None.
Proof. split; [in_list | reflexivity]. Qed.

(** C10: with exactly one scope the generic kind takes the branch that
    subscripts [object_types] with the kind, and ['symbol'] is no key of
    it. *)
Theorem resolve_xref_symbol_single_scope repr (symbols : registry)
    (scopes : scopes_dict) fromdoc target line content :
  symbols !! target = Some scopes →
  size scopes = 1 →
  resolve_xref repr symbols fromdoc "symbol" target line content
  = (Raise (KeyError "symbol"), []).
Proof.
  intros Hsym Hsize. unfold resolve_xref. rewrite Hsym, Hsize. reflexivity.
Qed.

(** C2: a generic reference to a name with more than one scope, all of
    them scopes of object types, resolves to the first of function,
    variable, face, struct the name has, and warns with a message that
    lists the scopes of the name and names the one chosen. *)
Theorem resolve_xref_symbol_priority repr (symbols : registry)
    (scopes : scopes_dict) fromdoc target line content :
  symbols !! target = Some scopes →
  1 < size scopes →
  (∀ s, is_Some (scopes !! s) → s ∈ scope_priority) →
  ∃ chosen docname kind earlier later,
    scope_priority = earlier ++ chosen :: later ∧
    (∀ s, s ∈ earlier → scopes !! s = None) ∧
    scopes !! chosen = Some (docname, kind) ∧
    (is_Some (scopes !! "function") → chosen = "function") ∧
    (∀ s, s ∈ dict_keys scopes ↔ is_Some (scopes !! s)) ∧
    resolve_xref repr symbols fromdoc "symbol" target line content
    = (Ok (Some (mkRefnode fromdoc docname (make_target chosen target)
                   content target)),
       [mkWarning fromdoc
          ("Ambiguous reference to " +:+ target +:+ ", in scopes "
           +:+ Str.join ", " (dict_keys scopes) +:+ ", using " +:+ chosen)
          line]).
Proof.
  intros Hsym Hsize Hknown.
  destruct (first_scope scopes) as [chosen|] eqn:Hfirst.
  - destruct (first_scope_Some _ _ Hfirst)
      as (earlier & later & Hprio & [[docname kind] Hchosen] & Hearlier).
    exists chosen, docname, kind, earlier, later.
    assert (chosen ∈ scope_priority) as Hin.
    { rewrite Hprio. apply elem_of_app. right. by left. }
    split_and!; [done | done | done | | apply dict_keys_spec |].
    + intros Hfun. unfold first_scope, scope_priority in Hfirst.
      simpl in Hfirst. rewrite bool_decide_eq_true_2 in Hfirst by done.
      by injection Hfirst.
    + unfold resolve_xref. rewrite Hsym. simpl.
      apply Nat.ltb_lt in Hsize. rewrite Hsize, Hfirst.
      rewrite (scope_priority_truthy _ Hin). simpl. by rewrite Hchosen.
  - exfalso. assert (scopes ≠ ∅) as Hne.
    { intros ->. rewrite map_size_empty in Hsize. lia. }
    apply map_choose in Hne as (s & v & Hs).
    assert (s ∈ scope_priority) as Hin by (apply Hknown; by rewrite Hs).
    rewrite (proj1 (first_scope_None scopes) Hfirst s Hin) in Hs. done.
Qed.

(** C8, as the code has it: a generic reference to a name with more than
    one scope, none of them one of function, variable, face, struct, raises
    [ValueError]. *)
Theorem resolve_xref_unknown_scopes repr (symbols : registry)
    (scopes : scopes_dict) fromdoc target line content :
  symbols !! target = Some scopes →
  1 < size scopes →
  (∀ s, s ∈ scope_priority → scopes !! s = None) →
  resolve_xref repr symbols fromdoc "symbol" target line content
  = (Raise (ValueError ("Unknown scopes: " +:+ repr scopes)), []).
Proof.
  intros Hsym Hsize Hnone. unfold resolve_xref. rewrite Hsym. simpl.
  apply Nat.ltb_lt in Hsize. rewrite Hsize.
  by rewrite (proj2 (first_scope_None scopes) Hnone).
Qed.

(** *** Sample registries *)

(** A rendering of a scopes dict in place of Python's [repr], for the
    examples. *)
Definition show_scopes (scopes : scopes_dict) : string :=
  "{" +:+ Str.join ", " (dict_keys scopes) +:+ "}".

(** [flycheck-mode] documented as a command and as an option. *)
Definition two_scopes : scopes_dict :=
  <["function" := ("guide/usage", "command")]>
    {["variable" := ("guide/usage", "option")]}.

(** [flycheck-mode] documented as an option only. *)
Definition variable_only : scopes_dict :=
  {["variable" := ("guide/usage", "option")]}.

(** A dict with scopes that no object type has. *)
Definition foreign_scopes : scopes_dict :=
  <["keymap" := ("guide/usage", "keymap")]>
    {["feature" := ("guide/usage", "feature")]}.

(** A dict with a scope of an object type and a scope that none has. *)
Definition mixed_scopes : scopes_dict :=
  <["function" := ("guide/usage", "command")]>
    {["keymap" := ("guide/usage", "keymap")]}.

(** Every scope of the dict is the scope of some object type. *)
Definition all_known (scopes : scopes_dict) : bool :=
  forallb (λ s, bool_decide (s ∈ scope_priority)) (dict_keys scopes).

Lemma all_known_spec (scopes : scopes_dict) :
  all_known scopes = true →
  ∀ s, is_Some (scopes !! s) → s ∈ scope_priority.
Proof.
  unfold all_known. rewrite forallb_forall. intros Hall s Hs.
  apply dict_keys_spec, list_elem_of_In in Hs.
  by apply Hall, bool_decide_eq_true in Hs.
Qed.

Lemma none_known_spec (scopes : scopes_dict) :
  first_scope scopes = None →
  ∀ s, s ∈ scope_priority → scopes !! s = None.
Proof. apply first_scope_None. Qed.

Lemma resolve_xref_scope_mismatch_witness :
  let symbols : registry := {["flycheck-mode" := variable_only]} in
  symbols !! "flycheck-mode" = Some variable_only ∧
  (∀ s, is_Some (variable_only !! s) ↔ s = "variable") ∧
  resolve_xref show_scopes symbols "index" "function" "flycheck-mode"
    (Some 12) "flycheck-mode"
  = (Ok None, []).
Proof.
  assert (H1 : ({["flycheck-mode" := variable_only]} : registry)
               !! "flycheck-mode" = Some variable_only) by reflexivity.
  assert (H2 : ∀ s, is_Some (variable_only !! s) ↔ s = "variable").
  { intros s. unfold variable_only. rewrite lookup_singleton_is_Some.
    split; congruence. }
  split_and!; [exact H1 | exact H2 |].
  exact (resolve_xref_scope_mismatch show_scopes _ _ "index" "flycheck-mode"
           (Some 12) "flycheck-mode" H1 H2).
Defined.

Lemma resolve_xref_symbol_single_scope_witness :
  let symbols : registry := {["flycheck-mode" := variable_only]} in
  symbols !! "flycheck-mode" = Some variable_only ∧
  size variable_only = 1 ∧
  resolve_xref show_scopes symbols "index" "symbol" "flycheck-mode"
    (Some 12) "flycheck-mode"
  = (Raise (KeyError "symbol"), []).
Proof.
  assert (H1 : ({["flycheck-mode" := variable_only]} : registry)
               !! "flycheck-mode" = Some variable_only) by reflexivity.
  assert (H2 : size variable_only = 1) by reflexivity.
  split_and!; [exact H1 | exact H2 |].
  exact (resolve_xref_symbol_single_scope show_scopes _ _ "index"
           "flycheck-mode" (Some 12) "flycheck-mode" H1 H2).
Defined.

Lemma resolve_xref_symbol_priority_witness :
  let symbols : registry := {["flycheck-mode" := two_scopes]} in
  symbols !! "flycheck-mode" = Some two_scopes ∧
  1 < size two_scopes ∧
  (∀ s, is_Some (two_scopes !! s) → s ∈ scope_priority) ∧
  ∃ chosen docname kind earlier later,
    scope_priority = earlier ++ chosen :: later ∧
    (∀ s, s ∈ earlier → two_scopes !! s = None) ∧
    two_scopes !! chosen = Some (docname, kind) ∧
    (is_Some (two_scopes !! "function") → chosen = "function") ∧
    (∀ s, s ∈ dict_keys two_scopes ↔ is_Some (two_scopes !! s)) ∧
    resolve_xref show_scopes symbols "index" "symbol" "flycheck-mode"
      (Some 12) "flycheck-mode"
    = (Ok (Some (mkRefnode "index" docname
                   (make_target chosen "flycheck-mode")
                   "flycheck-mode" "flycheck-mode")),
       [mkWarning "index"
          ("Ambiguous reference to " +:+ "flycheck-mode" +:+ ", in scopes "
           +:+ Str.join ", " (dict_keys two_scopes) +:+ ", using " +:+ chosen)
          (Some 12)]).
Proof.
  assert (H1 : ({["flycheck-mode" := two_scopes]} : registry)
               !! "flycheck-mode" = Some two_scopes) by reflexivity.
  assert (H2 : 1 < size two_scopes) by (vm_compute; lia).
  assert (H3 : ∀ s, is_Some (two_scopes !! s) → s ∈ scope_priority)
    by (apply all_known_spec; reflexivity).
  split_and!; [exact H1 | exact H2 | exact H3 |].
  exact (resolve_xref_symbol_priority show_scopes _ _ "index" "flycheck-mode"
           (Some 12) "flycheck-mode" H1 H2 H3).
Defined.

Lemma resolve_xref_unknown_scopes_witness :
  let symbols : registry := {["flycheck-mode" := foreign_scopes]} in
  symbols !! "flycheck-mode" = Some foreign_scopes ∧
  1 < size foreign_scopes ∧
  (∀ s, s ∈ scope_priority → foreign_scopes !! s = None) ∧
  resolve_xref show_scopes symbols "index" "symbol" "flycheck-mode"
    (Some 12) "flycheck-mode"
  = (Raise (ValueError ("Unknown scopes: " +:+ show_scopes foreign_scopes)),
     []).
Proof.
  assert (H1 : ({["flycheck-mode" := foreign_scopes]} : registry)
               !! "flycheck-mode" = Some foreign_scopes) by reflexivity.
  assert (H2 : 1 < size foreign_scopes) by (vm_compute; lia).
  assert (H3 : ∀ s, s ∈ scope_priority → foreign_scopes !! s = None)
    by (apply none_known_spec; reflexivity).
  split_and!; [exact H1 | exact H2 | exact H3 |].
  exact (resolve_xref_unknown_scopes show_scopes _ _ "index" "flycheck-mode"
           (Some 12) "flycheck-mode" H1 H2 H3).
Defined.

(** C8 as stated does not hold: next to a scope that no object type has,
    the function scope is chosen and nothing is raised. *)
Lemma resolve_xref_mixed_scopes_no_error :
  is_Some (mixed_scopes !! "keymap") ∧
("keymap" ∉ scope_priority) ∧
  (resolve_xref show_scopes {["flycheck-mode" := mixed_scopes]} "index"
     "symbol" "flycheck-mode" (Some 12) "flycheck-mode").1
  = Ok (Some (mkRefnode "index" "guide/usage" "el.function.flycheck-mode"
                "flycheck-mode" "flycheck-mode")).
Proof.
  split_and!; [by eexists | | reflexivity].
  intros Hin. apply list_elem_of_In in Hin. simpl in Hin.
  repeat destruct Hin as [Hin|Hin]; try discriminate Hin. done.
Qed.

(** ** Purging a document *)

(** The deletions of one pass over [items], on the dict [cur]. *)
Definition purge_items (docname : string)
    (items : list (string * (string * string))) (cur : scopes_dict)
  : scopes_dict :=
  foldl (λ (acc : scopes_dict) '(scope, (object_docname, _)),
           if decide (docname = object_docname) then delete scope acc else acc)
        cur items.

(** A scopes dict without the entries of [docname]. *)
Definition purged (docname : string) (scopes : scopes_dict) : scopes_dict :=
  omap (λ '(object_docname, objtype),
          if decide (docname = object_docname) then None
          else Some (object_docname, objtype)) scopes.

Lemma clear_scopes_lookup_ne docname symbol items (symbols : registry) other :
  symbol ≠ other →
  clear_scopes docname symbol items symbols !! other = symbols !! other.
Proof.
  intros Hne. revert symbols. unfold clear_scopes.
  induction items as [|[s [od k]] items IH]; intros symbols; simpl; [done|].
  rewrite IH. case_decide; [by rewrite lookup_alter_ne | done].
Qed.

Lemma clear_scopes_lookup docname symbol items (symbols : registry) :
  clear_scopes docname symbol items symbols !! symbol
  = purge_items docname items <$> symbols !! symbol.
Proof.
  revert symbols. unfold clear_scopes, purge_items.
  induction items as [|[s [od k]] items IH]; intros symbols; simpl.
  - by destruct (symbols !! symbol).
  - rewrite IH. case_decide; [|done].
    rewrite lookup_alter_eq. by destruct (symbols !! symbol).
Qed.

Lemma purge_items_None docname items (cur : scopes_dict) s :
  cur !! s = None → purge_items docname items cur !! s = None.
Proof.
  revert cur. unfold purge_items.
  induction items as [|[s' [od k]] items IH]; intros cur Hcur; simpl; [done|].
  apply IH. case_decide; [|done].
  rewrite lookup_delete. by case_decide.
Qed.

Lemma purge_items_in docname items (cur : scopes_dict) s k :
  (s, (docname, k)) ∈ items → purge_items docname items cur !! s = None.
Proof.
  revert cur.
  induction items as [|[s' [od k']] items IH]; intros cur Hin.
  - by apply elem_of_nil in Hin.
  - apply elem_of_cons in Hin as [Heq|Hin].
    + injection Heq as <- <- <-. unfold purge_items. simpl.
      rewrite decide_True by done.
      apply purge_items_None, lookup_delete_eq.
    + unfold purge_items. simpl. by apply IH.
Qed.

Lemma purge_items_notin docname items (cur : scopes_dict) s :
  (∀ k, (s, (docname, k)) ∉ items) →
  purge_items docname items cur !! s = cur !! s.
Proof.
  revert cur.
  induction items as [|[s' [od k']] items IH]; intros cur Hnotin; [done|].
  change (purge_items docname items
            (if decide (docname = od) then delete s' cur else cur) !! s
          = cur !! s).
  rewrite IH.
  - case_decide as Hd; [|done]. subst od.
    apply lookup_delete_ne. intros ->. apply (Hnotin k'). by left.
  - intros k Hin. apply (Hnotin k). by right.
Qed.

(** One pass of the inner loop with the items of [snapshot]. *)
Lemma purge_items_snapshot docname (snapshot cur : scopes_dict) s :
  purge_items docname (map_to_list snapshot) cur !! s
  = match snapshot !! s with
    | Some (object_docname, _) =>
        if decide (docname = object_docname) then None else cur !! s
    | None => cur !! s
    end.
Proof.
  destruct (snapshot !! s) as [[od k]|] eqn:Hs.
  - case_decide as Hd.
    + subst od. apply (purge_items_in _ _ _ _ k). by apply elem_of_map_to_list.
    + apply purge_items_notin. intros k' Hin.
      apply elem_of_map_to_list in Hin. congruence.
  - apply purge_items_notin. intros k' Hin.
    apply elem_of_map_to_list in Hin. congruence.
Qed.

Lemma purged_lookup docname (scopes : scopes_dict) s :
  purged docname scopes !! s
  = match scopes !! s with
    | Some (object_docname, objtype) =>
        if decide (docname = object_docname) then None
        else Some (object_docname, objtype)
    | None => None
    end.
Proof.
  unfold purged. rewrite lookup_omap.
  by destruct (scopes !! s) as [[??]|].
Qed.

Lemma purge_items_self docname (scopes : scopes_dict) :
  purge_items docname (map_to_list scopes) scopes = purged docname scopes.
Proof.
  apply map_eq. intros s. rewrite purge_items_snapshot, purged_lookup.
  destruct (scopes !! s) as [[od k]|]; [|done]. by case_decide.
Qed.

Lemma purge_items_again docname (scopes : scopes_dict) :
  purge_items docname (map_to_list scopes) (purged docname scopes)
  = purged docname scopes.
Proof.
  apply map_eq. intros s. rewrite purge_items_snapshot, purged_lookup.
  destruct (scopes !! s) as [[od k]|]; [|done]. by case_decide.
Qed.

(** What the outer loop does to the dict of [symbol] when it passes the
    entry [(key, scopes)]. *)
Definition purge_for (docname symbol : string) (cur : scopes_dict)
    (entry : string * scopes_dict) : scopes_dict :=
  if decide (entry.1 = symbol)
  then purge_items docname (map_to_list entry.2) cur
  else cur.

Lemma purge_for_eq docname symbol (cur scopes : scopes_dict) :
  purge_for docname symbol cur (symbol, scopes)
  = purge_items docname (map_to_list scopes) cur.
Proof. unfold purge_for. simpl. by rewrite decide_True. Qed.

Lemma purge_for_ne docname symbol key (cur scopes : scopes_dict) :
  key ≠ symbol → purge_for docname symbol cur (key, scopes) = cur.
Proof. intros Hne. unfold purge_for. simpl. by rewrite decide_False. Qed.

Lemma clear_doc_fold_lookup docname symbol
    (entries : list (string * scopes_dict)) (acc : registry) :
  foldl (λ (acc : registry) '(symbol, scopes),
           clear_scopes docname symbol (map_to_list scopes) acc)
        acc entries !! symbol
  = (λ cur, foldl (purge_for docname symbol) cur entries) <$> acc !! symbol.
Proof.
  revert acc.
  induction entries as [|[key scopes] entries IH]; intros acc; simpl.
  - by destruct (acc !! symbol).
  - rewrite IH. destruct (decide (key = symbol)) as [->|Hkey].
    + rewrite clear_scopes_lookup.
      destruct (acc !! symbol); simpl; [|done]. by rewrite purge_for_eq.
    + rewrite clear_scopes_lookup_ne by done.
      destruct (acc !! symbol); simpl; [|done]. by rewrite purge_for_ne.
Qed.

Lemma purge_for_purged docname symbol (snapshot : scopes_dict)
    (entries : list (string * scopes_dict)) :
  (∀ scopes, (symbol, scopes) ∈ entries → scopes = snapshot) →
  foldl (purge_for docname symbol) (purged docname snapshot) entries
  = purged docname snapshot.
Proof.
  induction entries as [|[key scopes] entries IH]; intros Hsame; simpl; [done|].
  destruct (decide (key = symbol)) as [->|Hkey].
  - assert (scopes = snapshot) as -> by (apply Hsame; by left).
    rewrite purge_for_eq, purge_items_again.
    apply IH. intros sc Hin. apply Hsame. by right.
  - rewrite purge_for_ne by done.
    apply IH. intros sc Hin. apply Hsame. by right.
Qed.

Lemma purge_for_snapshot docname symbol (snapshot : scopes_dict)
    (entries : list (string * scopes_dict)) :
  (∀ scopes, (symbol, scopes) ∈ entries → scopes = snapshot) →
  (symbol, snapshot) ∈ entries →
  foldl (purge_for docname symbol) snapshot entries = purged docname snapshot.
Proof.
  induction entries as [|[key scopes] entries IH]; intros Hsame Hin.
  - by apply elem_of_nil in Hin.
  - simpl. destruct (decide (key = symbol)) as [->|Hkey].
    + assert (scopes = snapshot) as -> by (apply Hsame; by left).
      rewrite purge_for_eq, purge_items_self. apply purge_for_purged.
      intros sc Hsc. apply Hsame. by right.
    + rewrite purge_for_ne by done. apply IH.
      * intros sc Hsc. apply Hsame. by right.
      * apply elem_of_cons in Hin as [Heq|Hin]; [|done].
        injection Heq as <- _. done.
Qed.

(** [clear_doc] leaves every name in the registry and takes the entries of
    [docname] out of its dict. *)
Lemma clear_doc_lookup docname (symbols : registry) symbol :
  clear_doc docname symbols !! symbol = purged docname <$> symbols !! symbol.
Proof.
  unfold clear_doc. rewrite clear_doc_fold_lookup.
  destruct (symbols !! symbol) as [snapshot|] eqn:Hsym; [|done]. simpl.
  f_equal. apply purge_for_snapshot.
  - intros scopes Hin. apply elem_of_map_to_list in Hin. congruence.
  - by apply elem_of_map_to_list.
Qed.

(** C5: after [clear_doc] the lookup of a (name, scope) pair finds nothing
    when the pair was declared by the purged document, and finds what it
    found before in every other case. *)
Theorem clear_doc_lookup_symbol docname (symbols : registry) name s :
  lookup_symbol (clear_doc docname symbols) name s
  = match lookup_symbol symbols name s with
    | Some (object_docname, objtype) =>
        if decide (docname = object_docname) then None
        else Some (object_docname, objtype)
    | None => None
    end.
Proof.
  unfold lookup_symbol. rewrite clear_doc_lookup.
  destruct (symbols !! name) as [scopes|]; [|done]. simpl.
  apply purged_lookup.
Qed.

(** ** Registration *)

Lemma object_types_scope objtype ot :
  object_types objtype = Some ot → scope ot ∈ scope_priority.
Proof.
  unfold object_types. intros H.
  repeat (destruct (String.eqb objtype _);
          [injection H as <-; simpl; in_list|]).
  discriminate H.
Qed.

(** The entry that [add_target_and_index] writes, seen through the lookup. *)
Lemma lookup_symbol_insert (symbols : registry) name sc entry n s :
  lookup_symbol
    (<[name := <[sc := entry]> (default ∅ (symbols !! name))]> symbols) n s
  = if decide (n = name ∧ s = sc) then Some entry else lookup_symbol symbols n s.
Proof.
  unfold lookup_symbol. destruct (decide (n = name)) as [->|Hn].
  - rewrite lookup_insert_eq. simpl. destruct (decide (s = sc)) as [->|Hs].
    + rewrite lookup_insert_eq. by rewrite decide_True.
    + rewrite lookup_insert_ne by done. rewrite decide_False by tauto.
      destruct (symbols !! name); simpl; [done | apply lookup_empty].
  - rewrite lookup_insert_ne by done. by rewrite decide_False by tauto.
Qed.

Section Registration.

Variable doc2path : string → string.

Abbreviation add_target_and_index :=
  (EmacsLispSymbol.add_target_and_index doc2path).

(** The first description of a (name, scope) pair in the document being
    read: the guard on the ids of the document lets it through. *)
Lemma add_target_and_index_fresh objtype ot name lineno st :
  object_types objtype = Some ot →
  make_target (scope ot) name ∉ doc_ids st →
  add_target_and_index objtype name lineno st
  = (Ok (),
     mkState (env_docname st) (env_cl_struct st)
       ({[make_target (scope ot) name]} ∪ doc_ids st)
       (<[name := <[scope ot := (env_docname st, objtype)]>
                    (default ∅ (env_symbols st !! name))]> (env_symbols st))
       (match lookup_symbol (env_symbols st) name (scope ot) with
        | Some (other_docname, _) =>
            env_reports st ++
            [mkReport ("duplicate object description of " +:+ name
                       +:+ ", " +:+ "other instance in "
                       +:+ doc2path other_docname) lineno]
        | None => env_reports st
        end)
       (env_index st ++
        [mkIndexEntry "pair" (name +:+ "; Emacs Lisp " +:+ lname ot)
           (make_target (scope ot) name) ""])).
Proof.
  intros Hot Hfresh. unfold EmacsLispSymbol.add_target_and_index.
  unfold object_types_getitem. rewrite Hot.
  rewrite bool_decide_eq_false_2 by done.
  unfold lookup_symbol.
  destruct (env_symbols st !! name) as [scopes|]; simpl; [done|].
  by rewrite lookup_empty.
Qed.

(** A later description of the same pair in the same document changes
    neither the registry nor the ids. *)
Lemma add_target_and_index_seen objtype ot name lineno st :
  object_types objtype = Some ot →
  make_target (scope ot) name ∈ doc_ids st →
  add_target_and_index objtype name lineno st
  = (Ok (),
     mkState (env_docname st) (env_cl_struct st) (doc_ids st)
       (env_symbols st) (env_reports st)
       (env_index st ++
        [mkIndexEntry "pair" (name +:+ "; Emacs Lisp " +:+ lname ot)
           (make_target (scope ot) name) ""])).
Proof.
  intros Hot Hseen. unfold EmacsLispSymbol.add_target_and_index.
  unfold object_types_getitem. rewrite Hot.
  by rewrite bool_decide_eq_true_2 by done.
Qed.

Lemma add_target_and_index_unknown objtype name lineno st :
  object_types objtype = None →
  add_target_and_index objtype name lineno st = (Raise (KeyError objtype), st).
Proof.
  intros Hot. unfold EmacsLispSymbol.add_target_and_index.
  unfold object_types_getitem. by rewrite Hot.
Qed.

(** Every target of a known scope among the ids of the document being
    read was registered by that document, and is still registered to it. *)
Definition ids_registered (st : build_state) : Prop :=
  ∀ s name,
    s ∈ scope_priority →
    make_target s name ∈ doc_ids st →
    ∃ objtype,
      lookup_symbol (env_symbols st) name s = Some (env_docname st, objtype).

Lemma ids_registered_initial : ids_registered initial_state.
Proof. intros s name _ Hin. simpl in Hin. set_solver. Qed.

Lemma ids_registered_step st e :
  ids_registered st → ids_registered (step doc2path st e).
Proof.
  intros Hinv. destruct e as [docname|objtype name lineno|names|]; simpl.
  - intros s n _ Hin. simpl in Hin. set_solver.
  - destruct (object_types objtype) as [ot|] eqn:Hot.
    + destruct (decide (make_target (scope ot) name ∈ doc_ids st))
        as [Hseen|Hfresh].
      * rewrite (add_target_and_index_seen _ ot) by done. exact Hinv.
      * rewrite (add_target_and_index_fresh _ ot) by done.
        intros s n Hs Hin. simpl in *.
        rewrite lookup_symbol_insert.
        case_decide as Hsame; [by eexists|].
        apply elem_of_union in Hin as [Hin|Hin].
        -- apply elem_of_singleton in Hin.
           apply make_target_inj in Hin as [-> ->];
             [| done | by eapply object_types_scope].
           by destruct Hsame.
        -- by apply Hinv.
    + rewrite add_target_and_index_unknown by done. exact Hinv.
  - destruct names; [exact Hinv|]. exact Hinv.
  - unfold EmacsLispCLStruct.after_content.
    destruct (env_cl_struct st); exact Hinv.
Qed.

Lemma ids_registered_run events st :
  ids_registered st → ids_registered (run doc2path events st).
Proof.
  revert st. unfold run.
  induction events as [|e events IH]; intros st Hinv; simpl; [done|].
  by apply IH, ids_registered_step.
Qed.

Lemma reachable_ids_registered st :
  reachable doc2path st → ids_registered st.
Proof.
  intros [events ->]. apply ids_registered_run, ids_registered_initial.
Qed.

(** Every scope in the registry is the scope of an object type. *)
Definition scopes_known (st : build_state) : Prop :=
  ∀ name s,
    is_Some (lookup_symbol (env_symbols st) name s) → s ∈ scope_priority.

Lemma scopes_known_step st e :
  scopes_known st → scopes_known (step doc2path st e).
Proof.
  intros Hinv. destruct e as [docname|objtype name lineno|names|]; simpl.
  - intros n s. simpl. unfold lookup_symbol. rewrite clear_doc_lookup.
    intros Hsome. apply (Hinv n s). unfold lookup_symbol.
    destruct (env_symbols st !! n) as [scopes|]; simpl in *; [|done].
    rewrite purged_lookup in Hsome. by destruct (scopes !! s).
  - destruct (object_types objtype) as [ot|] eqn:Hot.
    + destruct (decide (make_target (scope ot) name ∈ doc_ids st))
        as [Hseen|Hfresh].
      * rewrite (add_target_and_index_seen _ ot) by done. exact Hinv.
      * rewrite (add_target_and_index_fresh _ ot) by done.
        intros n s. simpl. rewrite lookup_symbol_insert.
        case_decide as Hsame; [|by apply Hinv].
        destruct Hsame as [_ ->]. intros _. by eapply object_types_scope.
    + rewrite add_target_and_index_unknown by done. exact Hinv.
  - destruct names; exact Hinv.
  - unfold EmacsLispCLStruct.after_content.
    destruct (env_cl_struct st); exact Hinv.
Qed.

(** Registration and purging never put another scope in the registry. *)
Lemma reachable_scopes_known st name (scopes : scopes_dict) s :
  reachable doc2path st →
  env_symbols st !! name = Some scopes →
  is_Some (scopes !! s) → s ∈ scope_priority.
Proof.
  intros [events ->]. unfold run.
  assert (scopes_known initial_state) as Hinit.
  { intros n s' [v Hv]. unfold lookup_symbol in Hv. simpl in Hv.
    by rewrite lookup_empty in Hv. }
  revert Hinit. generalize initial_state.
  induction events as [|e events IH]; intros st Hinv Hsym Hs; simpl in *.
  - apply (Hinv name s). unfold lookup_symbol. by rewrite Hsym.
  - by apply (IH (step doc2path st e)); [apply scopes_known_step| |].
Qed.

End Registration.

(** C4: when a (name, scope) pair is registered to a document and another
    document, being read, describes the same pair, the directive warns with
    the path of the first document, goes on, and the pair is then
    registered to the document being read. *)
Theorem add_target_and_index_conflict doc2path st objtype ot name lineno
    other_docname other_objtype :
  reachable doc2path st →
  object_types objtype = Some ot →
  lookup_symbol (env_symbols st) name (scope ot)
  = Some (other_docname, other_objtype) →
  other_docname ≠ env_docname st →
  ∃ st',
    EmacsLispSymbol.add_target_and_index doc2path objtype name lineno st
    = (Ok (), st') ∧
    env_reports st'
    = env_reports st ++
      [mkReport ("duplicate object description of " +:+ name +:+ ", "
                 +:+ "other instance in " +:+ doc2path other_docname) lineno] ∧
    env_docname st' = env_docname st ∧
    lookup_symbol (env_symbols st') name (scope ot)
    = Some (env_docname st, objtype).
Proof.
  intros Hreach Hot Hother Hne.
  assert (make_target (scope ot) name ∉ doc_ids st) as Hfresh.
  { intros Hin.
    destruct (reachable_ids_registered doc2path st Hreach (scope ot) name)
      as [k Hk]; [by eapply object_types_scope | done |].
    congruence. }
  eexists. split; [by apply add_target_and_index_fresh|]. simpl.
  rewrite Hother. split_and!; [done | done |].
  rewrite lookup_symbol_insert. by rewrite decide_True.
Qed.

(** A session in which [guide/usage] documents the command [flycheck-mode]
    and the host then starts to read [index]. *)
Definition rst_path (docname : string) : string := docname +:+ ".rst".

Definition usage_then_index : build_state :=
  run rst_path
    [Read "guide/usage"; Describe "command" "flycheck-mode" 10; Read "index"]
    initial_state.

Lemma add_target_and_index_conflict_witness :
  reachable rst_path usage_then_index ∧
  object_types "function"
  = Some (mkObjType "function" ["function"] "function" 0) ∧
  lookup_symbol (env_symbols usage_then_index) "flycheck-mode" "function"
  = Some ("guide/usage", "command") ∧
  "guide/usage" ≠ env_docname usage_then_index ∧
  ∃ st',
    EmacsLispSymbol.add_target_and_index rst_path "function" "flycheck-mode"
      5 usage_then_index
    = (Ok (), st') ∧
    env_reports st'
    = env_reports usage_then_index ++
      [mkReport ("duplicate object description of " +:+ "flycheck-mode"
                 +:+ ", " +:+ "other instance in " +:+ rst_path "guide/usage")
         5] ∧
    env_docname st' = env_docname usage_then_index ∧
    lookup_symbol (env_symbols st') "flycheck-mode" "function"
    = Some (env_docname usage_then_index, "function").
Proof.
  assert (H1 : reachable rst_path usage_then_index) by (by eexists).
  assert (H2 : object_types "function"
               = Some (mkObjType "function" ["function"] "function" 0))
    by reflexivity.
  assert (H3 : lookup_symbol (env_symbols usage_then_index) "flycheck-mode"
                 "function" = Some ("guide/usage", "command"))
    by (vm_compute; reflexivity).
  assert (H4 : "guide/usage" ≠ env_docname usage_then_index)
    by (vm_compute; discriminate).
  split_and!; [exact H1 | exact H2 | exact H3 | exact H4 |].
  exact (add_target_and_index_conflict rst_path usage_then_index "function"
           _ "flycheck-mode" 5 "guide/usage" "command" H1 H2 H3 H4).
Defined.

(** ** White space and words *)

Lemma string_app_cons (c : ascii) (s1 s2 : string) :
  String c s1 +:+ s2 = String c (s1 +:+ s2).
Proof. reflexivity. Qed.

Lemma string_app_nil_l (s : string) : "" +:+ s = s.
Proof. reflexivity. Qed.

Lemma string_app_nil_r (s : string) : s +:+ "" = s.
Proof.
  induction s as [|c s IH]; [done|]. by rewrite string_app_cons, IH.
Qed.

Lemma string_app_assoc (s1 s2 s3 : string) :
  (s1 +:+ s2) +:+ s3 = s1 +:+ (s2 +:+ s3).
Proof.
  induction s1 as [|c s1 IH]; [done|]. by rewrite !string_app_cons, IH.
Qed.

Lemma string_of_list_ascii_app (l1 l2 : list ascii) :
  string_of_list_ascii (l1 ++ l2)
  = string_of_list_ascii l1 +:+ string_of_list_ascii l2.
Proof.
  induction l1 as [|c l1 IH]; [done|]. simpl.
  by rewrite string_app_cons, IH.
Qed.

(** Every character of the string satisfies [P]. *)
Fixpoint all_chars (P : ascii → bool) (s : string) : bool :=
  match s with
  | EmptyString => true
  | String c s' => P c && all_chars P s'
  end.

(** The string is made of white space (or empty). *)
Definition blank (s : string) : bool := all_chars Str.is_space s.

(** The string has no white space in it. *)
Definition spaceless (s : string) : bool :=
  all_chars (λ c, negb (Str.is_space c)) s.

Lemma all_chars_app P (s1 s2 : string) :
  all_chars P (s1 +:+ s2) = all_chars P s1 && all_chars P s2.
Proof.
  induction s1 as [|c s1 IH]; [done|].
  rewrite string_app_cons. simpl. by rewrite IH, andb_assoc.
Qed.

Lemma all_chars_of_list P (l : list ascii) :
  all_chars P (string_of_list_ascii l) = forallb P l.
Proof. induction l as [|c l IH]; simpl; [done | by rewrite IH]. Qed.

Lemma forallb_rev_true {A : Type} (P : A → bool) (l : list A) :
  forallb P l = true → forallb P (rev l) = true.
Proof.
  rewrite !forallb_forall. intros H x Hx. apply H. by apply in_rev.
Qed.

(** *** [split()] *)

(** The words of [split_words] are not empty and have no white space. *)
Lemma split_words_words (s : string) (word : list ascii) :
  forallb (λ c, negb (Str.is_space c)) word = true →
  Forall (λ w, w ≠ "" ∧ spaceless w = true) (Str.split_words word s).
Proof.
  assert (Hflush : ∀ word : list ascii,
            forallb (λ c, negb (Str.is_space c)) word = true →
            word ≠ [] →
            string_of_list_ascii (rev word) ≠ "" ∧
            spaceless (string_of_list_ascii (rev word)) = true).
  { intros w Hw Hne. split.
    - destruct w as [|c w]; [done|]. simpl.
      rewrite string_of_list_ascii_app. simpl.
      by destruct (string_of_list_ascii (rev w)).
    - unfold spaceless. rewrite all_chars_of_list. by apply forallb_rev_true. }
  revert word. induction s as [|c s IH]; intros word Hword; simpl.
  - destruct word as [|c0 word]; [constructor|].
    constructor; [by apply Hflush | constructor].
  - destruct (Str.is_space c) eqn:Hc.
    + destruct word as [|c0 word]; [by apply IH|].
      constructor; [by apply Hflush | by apply IH].
    + apply IH. simpl. by rewrite Hc.
Qed.

(** The first word of [split_words] in its place in the string. *)
Lemma split_words_first (s : string) (word : list ascii) name rest :
  Str.split_words word s = name :: rest →
  ∃ pre more tail,
    s = pre +:+ more +:+ tail ∧
    name = string_of_list_ascii (rev word) +:+ more ∧
    blank pre = true ∧ (word ≠ [] → pre = "") ∧
    spaceless more = true ∧
    (tail = "" ∨ ∃ c t, tail = String c t ∧ Str.is_space c = true).
Proof.
  revert word name rest. induction s as [|c s IH]; intros word name rest; simpl.
  - destruct word as [|c0 word]; [done|]. intros [= <- <-].
    exists "", "", "". split_and!; rewrite ?string_app_nil_r; auto.
  - destruct (Str.is_space c) eqn:Hc.
    + destruct word as [|c0 word].
      * intros Hsplit.
        destruct (IH _ _ _ Hsplit) as (pre & more & tail & -> & -> & Hpre & _
                                        & Hmore & Htail).
        exists (String c pre), more, tail. simpl.
        split_and!; [done | done | | done | done | done].
        unfold blank in *. simpl. by rewrite Hc, Hpre.
      * intros [= <- _]. exists "", "", (String c s).
        split_and!; rewrite ?string_app_nil_r; auto. right. eauto.
    + intros Hsplit.
      destruct (IH _ _ _ Hsplit) as (pre & more & tail & -> & -> & _ & Hnil
                                      & Hmore & Htail).
      rewrite (Hnil ltac:(done)). exists "", (String c more), tail. simpl.
      split_and!; [done | | done | done | | done].
      * rewrite string_of_list_ascii_app, string_app_assoc. done.
      * unfold spaceless in *. simpl. by rewrite Hc, Hmore.
Qed.

Lemma split_words_nil (s : string) (word : list ascii) :
  Str.split_words word s = [] ↔ word = [] ∧ blank s = true.
Proof.
  revert word. induction s as [|c s IH]; intros word; simpl.
  - destruct word; split; try done. by intros [? _].
  - unfold blank in *. simpl. destruct (Str.is_space c) eqn:Hc; simpl.
    + destruct word as [|c0 word].
      * rewrite IH. tauto.
      * split; [done | by intros [? _]].
    + rewrite IH. split; [by intros [? _] | by intros [_ ?]].
Qed.

(** ** Slots *)

(** A reference in the pair form never gets past the reconstruction of the
    target. *)
Lemma process_link_pair current_struct has_explicit_title title target
    struct slot :
  Str.cut_space (Str.lstrip_tilde target) = Some (struct, slot) →
  EmacsLispSlotXRefRole.process_link current_struct has_explicit_title title
    target
  = Raise (AttributeError "'list' object has no attribute 'join'").
Proof.
  intros Hcut. unfold EmacsLispSlotXRefRole.process_link.
  unfold Str.split_space_once. by rewrite Hcut.
Qed.

(** C3, on the code: both references of the example raise
    [AttributeError] instead of giving the target [rectangle-width]. *)
Theorem process_link_pair_form_raises :
  EmacsLispSlotXRefRole.process_link (Some "square") false "rectangle width"
    "rectangle width"
  = Raise (AttributeError "'list' object has no attribute 'join'") ∧
  EmacsLispSlotXRefRole.process_link (Some "square") false "~rectangle width"
    "~rectangle width"
  = Raise (AttributeError "'list' object has no attribute 'join'").
Proof. split; reflexivity. Qed.

(** C7 as stated does not hold for references: outside of a struct a bare
    slot reference is returned as it is and nothing is raised. *)
Lemma process_link_bare_without_struct :
  EmacsLispSlotXRefRole.process_link None false "width" "width"
  = Ok ("width", "width").
Proof. reflexivity. Qed.

(** C7, as the code has it: without a current struct the slot directive
    raises, [IndexError] when its signature is blank and [ValueError]
    otherwise, and the role returns a bare reference with its title as it
    is and its target without leading tildes and without a struct in
    front. *)
Theorem slot_without_struct current_struct options sig signode
    has_explicit_title title target :
  current_struct = None ∨ current_struct = Some "" →
  Str.cut_space (Str.lstrip_tilde target) = None →
  (EmacsLispCLSlot.handle_signature current_struct options sig signode).1
  = Raise (if blank sig then IndexError "list index out of range"
           else ValueError "Missing containing structure") ∧
  EmacsLispSlotXRefRole.process_link current_struct has_explicit_title title
    target
  = Ok (title, Str.lstrip_tilde target).
Proof.
  intros Hstruct Hbare. split.
  - unfold EmacsLispCLSlot.handle_signature, EmacsLispSymbol.handle_signature.
    unfold Str.split.
    destruct (Str.split_words [] sig) as [|name arguments] eqn:Hsplit.
    + apply split_words_nil in Hsplit as [_ ->]. done.
    + assert (blank sig = false) as ->.
      { destruct (blank sig) eqn:Hblank; [|done].
        assert (Str.split_words [] sig = []) as Hnil
            by (by apply split_words_nil).
        congruence. }
      by destruct Hstruct as [-> | ->].
  - unfold EmacsLispSlotXRefRole.process_link, Str.split_space_once.
    rewrite Hbare. simpl. by destruct Hstruct as [-> | ->].
Qed.

Lemma slot_without_struct_witness :
(@None string = None ∨ @None string = Some "") ∧
  Str.cut_space (Str.lstrip_tilde "~width") = None ∧
  (EmacsLispCLSlot.handle_signature None ∅ "width" []).1
  = Raise (if blank "width" then IndexError "list index out of range"
           else ValueError "Missing containing structure") ∧
  EmacsLispSlotXRefRole.process_link None false "~width" "~width"
  = Ok ("~width", Str.lstrip_tilde "~width").
Proof.
  assert (H1 : @None string = None ∨ @None string = Some "") by (by left).
  assert (H2 : Str.cut_space (Str.lstrip_tilde "~width") = None)
    by reflexivity.
  split; [exact H1|]. split; [exact H2|].
  exact (slot_without_struct None ∅ "width" [] false "~width" "~width" H1 H2).
Defined.

(** * Further properties of the registry *)

(** ** Invariants of a session *)

(** The object type recorded with an entry is one of [object_types], and
    the entry sits under the scope of that object type. *)
Definition entries_typed (symbols : registry) : Prop :=
  ∀ name s docname objtype,
    lookup_symbol symbols name s = Some (docname, objtype) →
    ∃ ot, object_types objtype = Some ot ∧ scope ot = s.

Lemma lookup_symbol_clear_doc docname (symbols : registry) name s :
  lookup_symbol (clear_doc docname symbols) name s
  = lookup_symbol symbols name s ≫= λ '(object_docname, objtype),
      if decide (docname = object_docname) then None
      else Some (object_docname, objtype).
Proof.
  unfold lookup_symbol. rewrite clear_doc_lookup.
  destruct (symbols !! name) as [scopes|]; simpl; [|done].
  rewrite purged_lookup. by destruct (scopes !! s) as [[??]|].
Qed.

Lemma run_invariant doc2path (P : build_state → Prop) :
  P initial_state →
  (∀ st e, P st → P (step doc2path st e)) →
  ∀ st, reachable doc2path st → P st.
Proof.
  intros Hinit Hstep st [events ->]. unfold run.
  revert Hinit. generalize initial_state.
  induction events as [|e events IH]; intros st Hst; simpl; [done|].
  by apply IH, Hstep.
Qed.

Lemma entries_typed_step doc2path st e :
  entries_typed (env_symbols st) →
  entries_typed (env_symbols (step doc2path st e)).
Proof.
  intros Hinv. destruct e as [docname|objtype name lineno|names|]; simpl.
  - intros n s d k. rewrite lookup_symbol_clear_doc.
    destruct (lookup_symbol (env_symbols st) n s) as [[d' k']|] eqn:Hl;
      simpl; [|done].
    case_decide; [done|]. intros [= <- <-]. by apply (Hinv n s d').
  - destruct (object_types objtype) as [ot|] eqn:Hot.
    + destruct (decide (make_target (scope ot) name ∈ doc_ids st))
        as [Hseen|Hfresh].
      * by rewrite (add_target_and_index_seen _ _ ot).
      * rewrite (add_target_and_index_fresh _ _ ot) by done.
        intros n s d k. simpl. rewrite lookup_symbol_insert.
        case_decide as Hsame; [|by apply Hinv].
        destruct Hsame as [_ ->]. intros [= <- <-]. by exists ot.
    + by rewrite add_target_and_index_unknown.
  - by destruct names.
  - unfold EmacsLispCLStruct.after_content. by destruct (env_cl_struct st).
Qed.

(** X1: in a build session every entry of the registry carries an object
    type of the domain and is filed under the scope of that object type,
    which is one of function, variable, face, struct. *)
Theorem session_entries_typed doc2path st name s docname objtype :
  reachable doc2path st →
  lookup_symbol (env_symbols st) name s = Some (docname, objtype) →
  s ∈ scope_priority ∧
  ∃ ot, object_types objtype = Some ot ∧ scope ot = s.
Proof.
  intros Hreach Hlookup.
  assert (entries_typed (env_symbols st)) as Htyped.
  { clear Hlookup. revert st Hreach.
    apply (run_invariant doc2path (λ st, entries_typed (env_symbols st))).
    - intros n s' d k Hk. unfold lookup_symbol in Hk. simpl in Hk.
      by rewrite lookup_empty in Hk.
    - apply entries_typed_step. }
  destruct (Htyped _ _ _ _ Hlookup) as (ot & Hot & <-).
  split; [by eapply object_types_scope | by exists ot].
Qed.

(** A session in which [guide/usage] documents [flycheck-mode] as a command
    and as an option. *)
Definition usage_session : build_state :=
  run rst_path
    [Read "guide/usage"; Describe "command" "flycheck-mode" 10;
     Describe "option" "flycheck-mode" 40]
    initial_state.

Lemma session_entries_typed_witness :
  reachable rst_path usage_session ∧
  lookup_symbol (env_symbols usage_session) "flycheck-mode" "variable"
  = Some ("guide/usage", "option") ∧
  "variable" ∈ scope_priority ∧
  ∃ ot, object_types "option" = Some ot ∧ scope ot = "variable".
Proof.
  assert (H1 : reachable rst_path usage_session) by (by eexists).
  assert (H2 : lookup_symbol (env_symbols usage_session) "flycheck-mode"
                 "variable" = Some ("guide/usage", "option"))
    by (vm_compute; reflexivity).
  split; [exact H1|]. split; [exact H2|].
  exact (session_entries_typed rst_path usage_session "flycheck-mode"
           "variable" "guide/usage" "option" H1 H2).
Defined.

(** ** Registration *)





(** ** Purging *)

Lemma purged_idempotent docname (scopes : scopes_dict) :
  purged docname (purged docname scopes) = purged docname scopes.
Proof.
  apply map_eq. intros s. rewrite !purged_lookup.
  destruct (scopes !! s) as [[od k]|]; [|done].
  case_decide; [done|]. by rewrite decide_False.
Qed.

Lemma purged_comm docname1 docname2 (scopes : scopes_dict) :
  purged docname1 (purged docname2 scopes)
  = purged docname2 (purged docname1 scopes).
Proof.
  apply map_eq. intros s. rewrite !purged_lookup.
  destruct (scopes !! s) as [[od k]|]; [|done].
  repeat (case_decide; simpl; try done).
Qed.

(** X4: purging never takes a name out of the registry: the names that are
    keys of [data\['symbols'\]] after [clear_doc] are the names that were keys
    before, a name without entries keeping an empty dict. *)
Theorem clear_doc_keeps_names docname (symbols : registry) :
  dom (clear_doc docname symbols) = dom symbols.
Proof.
  apply set_eq. intros name. rewrite !elem_of_dom, clear_doc_lookup.
  by rewrite fmap_is_Some.
Qed.

(** X5: purging a document twice is purging it once, and the order in which
    two documents are purged does not matter. *)
Theorem clear_doc_idempotent_comm docname1 docname2 (symbols : registry) :
  clear_doc docname1 (clear_doc docname1 symbols) = clear_doc docname1 symbols ∧
  clear_doc docname1 (clear_doc docname2 symbols)
  = clear_doc docname2 (clear_doc docname1 symbols).
Proof.
  split; apply map_eq; intros name; rewrite !clear_doc_lookup;
    destruct (symbols !! name) as [scopes|]; simpl; try done; f_equal.
  - apply purged_idempotent.
  - apply purged_comm.
Qed.

(** X6: purging a document that declares nothing leaves the registry as it
    is. *)
Theorem clear_doc_absent docname (symbols : registry) :
  (∀ name s object_docname objtype,
     lookup_symbol symbols name s = Some (object_docname, objtype) →
     object_docname ≠ docname) →
  clear_doc docname symbols = symbols.
Proof.
  intros Habsent. apply map_eq. intros name. rewrite clear_doc_lookup.
  destruct (symbols !! name) as [scopes|] eqn:Hname; simpl; [|done].
  f_equal. apply map_eq. intros s. rewrite purged_lookup.
  destruct (scopes !! s) as [[od k]|] eqn:Hs; [|done].
  rewrite decide_False; [done|]. intros ->.
  apply (Habsent name s od k); [|done].
  unfold lookup_symbol. rewrite Hname. simpl. done.
Qed.

Lemma clear_doc_absent_witness :
  let symbols : registry := {["flycheck-mode" := two_scopes]} in
  (∀ name s object_docname objtype,
     lookup_symbol symbols name s = Some (object_docname, objtype) →
     object_docname ≠ "index") ∧
  clear_doc "index" symbols = symbols.
Proof.
  assert (H1 : ∀ name s object_docname objtype,
             lookup_symbol ({["flycheck-mode" := two_scopes]} : registry)
               name s = Some (object_docname, objtype) →
             object_docname ≠ "index").
  { intros name s od k. unfold lookup_symbol.
    destruct (decide (name = "flycheck-mode")) as [->|Hne].
    - rewrite lookup_singleton_eq. simpl. unfold two_scopes.
      destruct (decide (s = "function")) as [->|Hf].
      + rewrite lookup_insert_eq. intros [= <- <-]. discriminate.
      + rewrite lookup_insert_ne by done.
        destruct (decide (s = "variable")) as [->|Hv].
        * rewrite lookup_singleton_eq. intros [= <- <-]. discriminate.
        * by rewrite lookup_singleton_ne.
    - by rewrite lookup_singleton_ne. }
  split; [exact H1|].
  exact (clear_doc_absent "index" {["flycheck-mode" := two_scopes]} H1).
Defined.

(** X7: a name whose entries all came from one document is still a key
    after that document is purged, with no scope left: a reference of a
    kind that is an object type then finds nothing, where for a name that
    was never a key it raises, and a reference of the generic kind raises
    [KeyError] for the kind. *)
Theorem resolve_xref_after_purge repr (symbols : registry)
    (scopes : scopes_dict) docname fromdoc objtype ot target line content :
  symbols !! target = Some scopes →
  (∀ s object_docname k,
     scopes !! s = Some (object_docname, k) → object_docname = docname) →
  object_types objtype = Some ot →
  resolve_xref repr (clear_doc docname symbols) fromdoc objtype target line
    content
  = (Ok None, []) ∧
  resolve_xref repr (clear_doc docname symbols) fromdoc "symbol" target line
    content
  = (Raise (KeyError "symbol"), []).
Proof.
  intros Hsym Hall Hot.
  assert (clear_doc docname symbols !! target = Some ∅) as Hcleared.
  { rewrite clear_doc_lookup, Hsym. simpl. f_equal.
    apply map_eq. intros s. rewrite purged_lookup, lookup_empty.
    destruct (scopes !! s) as [[od k]|] eqn:Hs; [|done].
    by rewrite decide_True by (symmetry; by eapply Hall). }
  split.
  - rewrite (resolve_xref_concrete repr _ ∅ fromdoc objtype ot) by done.
    by rewrite lookup_empty.
  - unfold resolve_xref. rewrite Hcleared. reflexivity.
Qed.

Lemma resolve_xref_after_purge_witness :
  let symbols : registry := {["flycheck-mode" := two_scopes]} in
  let ot := mkObjType "command" ["command"] "function" 1 in
  symbols !! "flycheck-mode" = Some two_scopes ∧
  (∀ s object_docname k,
     two_scopes !! s = Some (object_docname, k) →
     object_docname = "guide/usage") ∧
  object_types "command" = Some ot ∧
  resolve_xref show_scopes (clear_doc "guide/usage" symbols) "index"
    "command" "flycheck-mode" None "flycheck-mode"
  = (Ok None, []) ∧
  resolve_xref show_scopes (clear_doc "guide/usage" symbols) "index"
    "symbol" "flycheck-mode" None "flycheck-mode"
  = (Raise (KeyError "symbol"), []).
Proof.
  assert (H1 : ({["flycheck-mode" := two_scopes]} : registry)
               !! "flycheck-mode" = Some two_scopes) by reflexivity.
  assert (H2 : ∀ s object_docname k,
             two_scopes !! s = Some (object_docname, k) →
             object_docname = "guide/usage").
  { intros s od k. unfold two_scopes.
    destruct (decide (s = "function")) as [->|Hf].
    - rewrite lookup_insert_eq. by intros [= <- <-].
    - rewrite lookup_insert_ne by done.
      destruct (decide (s = "variable")) as [->|Hv].
      + rewrite lookup_singleton_eq. by intros [= <- <-].
      + by rewrite lookup_singleton_ne. }
  assert (H3 : object_types "command"
               = Some (mkObjType "command" ["command"] "function" 1))
    by reflexivity.
  split; [exact H1|]. split; [exact H2|]. split; [exact H3|].
  exact (resolve_xref_after_purge show_scopes _ two_scopes "guide/usage"
           "index" "command" _ "flycheck-mode" None "flycheck-mode"
           H1 H2 H3).
Defined.

(** ** Resolution *)

(** X8: kinds of one scope are interchangeable in a reference: a command
    can be referred to as a function or a macro, an option as a variable or
    a hook, with the same outcome in every registry. *)
Theorem resolve_xref_same_scope repr (symbols : registry) fromdoc
    objtype1 ot1 objtype2 ot2 target line content :
  object_types objtype1 = Some ot1 →
  object_types objtype2 = Some ot2 →
  scope ot1 = scope ot2 →
  resolve_xref repr symbols fromdoc objtype1 target line content
  = resolve_xref repr symbols fromdoc objtype2 target line content.
Proof.
  intros Hot1 Hot2 Hscope.
  destruct (symbols !! target) as [scopes|] eqn:Hsym.
  - rewrite (resolve_xref_concrete repr symbols scopes fromdoc objtype1 ot1)
      by done.
    rewrite (resolve_xref_concrete repr symbols scopes fromdoc objtype2 ot2)
      by done.
    by rewrite Hscope.
  - by rewrite !resolve_xref_unknown_target.
Qed.

Lemma resolve_xref_same_scope_witness :
  let symbols : registry := {["flycheck-mode" := two_scopes]} in
  let ot1 := mkObjType "function" ["function"] "function" 0 in
  let ot2 := mkObjType "macro" ["macro"] "function" 0 in
  object_types "function" = Some ot1 ∧
  object_types "macro" = Some ot2 ∧
  scope ot1 = scope ot2 ∧
  resolve_xref show_scopes symbols "index" "function" "flycheck-mode" None
    "flycheck-mode"
  = resolve_xref show_scopes symbols "index" "macro" "flycheck-mode" None
      "flycheck-mode".
Proof.
  pose (ot1 := mkObjType "function" ["function"] "function" 0).
  pose (ot2 := mkObjType "macro" ["macro"] "function" 0).
  assert (H1 : object_types "function" = Some ot1) by reflexivity.
  assert (H2 : object_types "macro" = Some ot2) by reflexivity.
  assert (H3 : scope ot1 = scope ot2) by reflexivity.
  split; [exact H1|]. split; [exact H2|]. split; [exact H3|].
  exact (resolve_xref_same_scope show_scopes
           {["flycheck-mode" := two_scopes]} "index" "function" ot1 "macro"
           ot2 "flycheck-mode" None "flycheck-mode" H1 H2 H3).
Defined.

(** The three ways in which [resolve_xref] finds its scope, for a target
    that is a key of the registry. *)
Lemma resolve_xref_cases repr (symbols : registry) (scopes : scopes_dict)
    fromdoc objtype target line content :
  symbols !! target = Some scopes →
  let r := resolve_xref repr symbols fromdoc objtype target line content in
  (∃ e, r = (Raise e, [])) ∨
  (r = (Ok None, []) ∧ ∃ ot, object_types objtype = Some ot) ∨
  (∃ s docname k,
     scopes !! s = Some (docname, k) ∧
     r.1 = Ok (Some (mkRefnode fromdoc docname (make_target s target) content
                       target)) ∧
     ((∃ ot, object_types objtype = Some ot ∧ scope ot = s ∧ r.2 = []) ∨
      (objtype = "symbol" ∧ 1 < size scopes ∧ s ∈ scope_priority ∧
       length r.2 = 1))).
Proof.
  intros Hsym. simpl. unfold resolve_xref. rewrite Hsym.
  destruct (String.eqb objtype "symbol") eqn:Hobj; simpl.
  - apply String.eqb_eq in Hobj as ->.
    destruct (1 <? size scopes)%nat eqn:Hsize; simpl.
    + apply Nat.ltb_lt in Hsize.
      destruct (first_scope scopes) as [chosen|] eqn:Hfirst;
        [|left; by eexists].
      destruct (first_scope_Some _ _ Hfirst)
        as (earlier & later & Hprio & [[docname k] Hchosen] & _).
      assert (chosen ∈ scope_priority) as Hin.
      { rewrite Hprio. apply elem_of_app. right. by left. }
      rewrite (scope_priority_truthy _ Hin). simpl. rewrite Hchosen.
      right. right. exists chosen, docname, k.
      split_and!; [done | done |]. right. by split_and!.
    + left. by eexists.
  - unfold object_types_getitem.
    destruct (object_types objtype) as [ot|] eqn:Hot; simpl;
      [|left; by eexists].
    destruct (scopes !! scope ot) as [[docname k]|] eqn:Hs.
    + right. right. exists (scope ot), docname, k.
      split_and!; [done | done |]. left. by exists ot.
    + right. left. split; [done | by exists ot].
Qed.

(** X9: a reference node that [resolve_xref] returns always points at an
    entry of the registry: its document is the one that declares the target
    under some scope, its target id is the target name of that scope and
    name, and for a kind that is an object type the scope is that of the
    object type. *)
Theorem resolve_xref_sound repr (symbols : registry) fromdoc objtype target
    line content node warnings :
  resolve_xref repr symbols fromdoc objtype target line content
  = (Ok (Some node), warnings) →
  ∃ s k,
    lookup_symbol symbols target s = Some (ref_todoc node, k) ∧
    ref_targetid node = make_target s target ∧
    ref_fromdoc node = fromdoc ∧ ref_title node = target ∧
    ref_child node = content ∧
    (∀ ot, object_types objtype = Some ot → scope ot = s).
Proof.
  intros Hres.
  destruct (symbols !! target) as [scopes|] eqn:Hsym.
  - destruct (resolve_xref_cases repr symbols scopes fromdoc objtype target
                line content Hsym)
      as [[e He] | [[Hnone _] | (s & docname & k & Hs & Hr & Hkind)]];
      simpl in *.
    + rewrite He in Hres. discriminate Hres.
    + rewrite Hnone in Hres. discriminate Hres.
    + rewrite Hres in Hr. simpl in Hr. injection Hr as ->.
      exists s, k. simpl. split_and!; try done.
      * unfold lookup_symbol. rewrite Hsym. simpl. done.
      * intros ot Hot. destruct Hkind as [(ot' & Hot' & Hsc & _) | (-> & _)].
        -- congruence.
        -- discriminate Hot.
  - rewrite resolve_xref_unknown_target in Hres by done. discriminate Hres.
Qed.

Lemma resolve_xref_sound_witness :
  let symbols : registry := {["flycheck-mode" := two_scopes]} in
  let node := mkRefnode "index" "guide/usage" "el.variable.flycheck-mode"
                "flycheck-mode" "flycheck-mode" in
  resolve_xref show_scopes symbols "index" "option" "flycheck-mode" None
    "flycheck-mode"
  = (Ok (Some node), []) ∧
  ∃ s k,
    lookup_symbol symbols "flycheck-mode" s = Some (ref_todoc node, k) ∧
    ref_targetid node = make_target s "flycheck-mode" ∧
    ref_fromdoc node = "index" ∧ ref_title node = "flycheck-mode" ∧
    ref_child node = "flycheck-mode" ∧
    (∀ ot, object_types "option" = Some ot → scope ot = s).
Proof.
  assert (H1 : resolve_xref show_scopes {["flycheck-mode" := two_scopes]}
                 "index" "option" "flycheck-mode" None "flycheck-mode"
               = (Ok (Some (mkRefnode "index" "guide/usage"
                              "el.variable.flycheck-mode" "flycheck-mode"
                              "flycheck-mode")), []))
    by (vm_compute; reflexivity).
  split; [exact H1|].
  exact (resolve_xref_sound show_scopes _ "index" "option" "flycheck-mode"
           None "flycheck-mode" _ _ H1).
Defined.

(** X10: [resolve_xref] warns only about an ambiguous generic reference
    that it resolves: when a warning is given the kind is [symbol], the
    target has more than one scope, there is exactly one warning, and a
    reference node is returned.  No warning comes with an exception or with
    an unresolved reference. *)
Theorem resolve_xref_warns_when_resolved repr (symbols : registry) fromdoc
    objtype target line content :
  let r := resolve_xref repr symbols fromdoc objtype target line content in
  r.2 ≠ [] →
  objtype = "symbol" ∧ length r.2 = 1 ∧
  (∃ scopes : scopes_dict, symbols !! target = Some scopes ∧ 1 < size scopes) ∧
  ∃ node, r.1 = Ok (Some node).
Proof.
  simpl. intros Hwarn.
  destruct (symbols !! target) as [scopes|] eqn:Hsym.
  - destruct (resolve_xref_cases repr symbols scopes fromdoc objtype target
                line content Hsym)
      as [[e He] | [[Hnone _] | (s & docname & k & Hs & Hr & Hkind)]];
      simpl in *.
    + by rewrite He in Hwarn.
    + by rewrite Hnone in Hwarn.
    + destruct Hkind as [(ot & _ & _ & Hnil) | (-> & Hsize & _ & Hlen)].
      * by rewrite Hnil in Hwarn.
      * split_and!; [done | done | by exists scopes | by eexists].
  - by rewrite resolve_xref_unknown_target in Hwarn.
Qed.

Lemma resolve_xref_warns_when_resolved_witness :
  let symbols : registry := {["flycheck-mode" := two_scopes]} in
  let r := resolve_xref show_scopes symbols "index" "symbol" "flycheck-mode"
             None "flycheck-mode" in
  r.2 ≠ [] ∧
  "symbol" = "symbol" ∧ length r.2 = 1 ∧
  (∃ scopes : scopes_dict,
     symbols !! "flycheck-mode" = Some scopes ∧ 1 < size scopes) ∧
  ∃ node, r.1 = Ok (Some node).
Proof.
  assert (H1 : (resolve_xref show_scopes {["flycheck-mode" := two_scopes]}
                  "index" "symbol" "flycheck-mode" None "flycheck-mode").2
               ≠ []) by (vm_compute; discriminate).
  split; [exact H1|].
  exact (resolve_xref_warns_when_resolved show_scopes _ "index" "symbol"
           "flycheck-mode" None "flycheck-mode" H1).
Defined.



(** * Signatures *)

(** Only the directive for [command] has the class [EmacsLispCommand]. *)
Lemma directives_command objtype :
  directives objtype = Some Class_Command ↔ objtype = "command".
Proof.
  split; [|by intros ->].
  intros Hclass. destruct (decide (objtype = "command")) as [|Hne]; [done|].
  apply String.eqb_neq in Hne. unfold directives in Hclass.
  rewrite Hne in Hclass.
  destruct (String.eqb objtype "function"); [done|].
  destruct (String.eqb objtype "macro"); [done|].
  destruct (String.eqb objtype "variable"); [done|].
  destruct (String.eqb objtype "option"); [done|].
  destruct (String.eqb objtype "hook"); [done|].
  destruct (String.eqb objtype "face"); [done|].
  destruct (String.eqb objtype "cl-struct"); [done|].
  destruct (String.eqb objtype "cl-slot"); done.
Qed.

(** The annotation that a directive named [objtype], of object type [ot],
    puts in front of the name: the keys of a command, with the prefix
    argument if the directive has one, kept in Texinfo, and for every
    other directive the titled long name of the object type. *)
Definition annotation_of (objtype : string) (ot : ObjType)
    (options : gmap string string) : sig_node :=
  if String.eqb objtype "command"
  then El_annotation (EmacsLispCommand.with_prefix_arg options "M-x" +:+ " ")
         true
  else El_annotation (Str.title (lname ot) +:+ " ") false.

Lemma self_make_type_annotation_spec objtype ot options :
  object_types objtype = Some ot →
  EmacsLispSymbol.self_make_type_annotation objtype options
  = Ok (annotation_of objtype ot options).
Proof.
  intros Hot. unfold EmacsLispSymbol.self_make_type_annotation, annotation_of.
  destruct (String.eqb objtype "command") eqn:Hc.
  - apply String.eqb_eq in Hc as ->. reflexivity.
  - apply String.eqb_neq in Hc.
    assert (directives objtype ≠ Some Class_Command) as Hd
        by (by rewrite directives_command).
    unfold EmacsLispSymbol.make_type_annotation, object_types_getitem.
    rewrite Hot. simpl.
    by destruct (directives objtype) as [[]|].
Qed.

(** What [handle_signature] does, by the signature. *)
Lemma symbol_handle_signature_cases objtype ot options sig signode :
  object_types objtype = Some ot →
  let r := EmacsLispSymbol.handle_signature objtype options sig signode in
  (blank sig = true ∧
   r = (Raise (IndexError "list index out of range"), signode)) ∨
  (blank sig = false ∧
   ∃ name pre tail,
     r = (Ok name,
          signode ++ [annotation_of objtype ot options; Desc_name name]) ∧
     sig = pre +:+ name +:+ tail ∧
     name ≠ "" ∧ spaceless name = true ∧ blank pre = true ∧
     (tail = "" ∨ ∃ c t, tail = String c t ∧ Str.is_space c = true)).
Proof.
  intros Hot. simpl. unfold EmacsLispSymbol.handle_signature.
  rewrite (self_make_type_annotation_spec objtype ot options Hot).
  unfold Str.split.
  destruct (Str.split_words [] sig) as [|name arguments] eqn:Hsplit.
  - left. apply split_words_nil in Hsplit as [_ Hblank]. done.
  - right. split.
    + destruct (blank sig) eqn:Hblank; [|done].
      assert (Str.split_words [] sig = []) as Hnil
          by (by apply split_words_nil).
      congruence.
    + pose proof (split_words_words sig [] eq_refl) as Hwords.
      rewrite Hsplit in Hwords. apply Forall_cons in Hwords as [[Hne Hsp] _].
      destruct (split_words_first _ _ _ _ Hsplit)
        as (pre & more & tail & Hsig & Hname & Hpre & _ & _ & Htail).
      change (name = more) in Hname. subst more.
      exists name, pre, tail. split_and!; done.
Qed.

(** X12: [handle_signature] of a directive raises [IndexError] and leaves
    the signature node alone exactly when the signature is blank;
    otherwise it returns the first word of the signature (not empty, free
    of white space, preceded in the signature by white space only and
    followed by white space or by nothing), and appends the annotation and
    the name, in this order.  The annotation of a command is [M-x] and a
    space, after the prefix argument and a space if the directive has the
    option, and is kept in Texinfo; the annotation of every other directive
    is the titled long name of its object type and a space. *)
Theorem handle_signature_first_word objtype ot options sig signode :
  object_types objtype = Some ot →
  let annotation :=
    if String.eqb objtype "command"
    then El_annotation
           (match options !! "prefix-arg" with
            | Some prefix_arg =>
                if Str.truthy prefix_arg then prefix_arg +:+ " " +:+ "M-x"
                else "M-x"
            | None => "M-x"
            end +:+ " ") true
    else El_annotation (Str.title (lname ot) +:+ " ") false in
  let r := EmacsLispSymbol.handle_signature objtype options sig signode in
  (blank sig = true ∧
   r = (Raise (IndexError "list index out of range"), signode)) ∨
  (blank sig = false ∧
   ∃ name pre tail,
     r = (Ok name, signode ++ [annotation; Desc_name name]) ∧
     sig = pre +:+ name +:+ tail ∧
     name ≠ "" ∧ spaceless name = true ∧ blank pre = true ∧
     (tail = "" ∨ ∃ c t, tail = String c t ∧ Str.is_space c = true)).
Proof. apply symbol_handle_signature_cases. Qed.

Lemma handle_signature_first_word_witness :
  let ot := mkObjType "command" ["command"] "function" 1 in
  let options : gmap string string := {["prefix-arg" := "C-u"]} in
  object_types "command" = Some ot ∧
  let annotation :=
    if String.eqb "command" "command"
    then El_annotation
           (match options !! "prefix-arg" with
            | Some prefix_arg =>
                if Str.truthy prefix_arg then prefix_arg +:+ " " +:+ "M-x"
                else "M-x"
            | None => "M-x"
            end +:+ " ") true
    else El_annotation (Str.title (lname ot) +:+ " ") false in
  let r := EmacsLispSymbol.handle_signature "command" options
             " flycheck-buffer  t" [] in
  (blank " flycheck-buffer  t" = true ∧
   r = (Raise (IndexError "list index out of range"), [])) ∨
  (blank " flycheck-buffer  t" = false ∧
   ∃ name pre tail,
     r = (Ok name, [] ++ [annotation; Desc_name name]) ∧
     " flycheck-buffer  t" = pre +:+ name +:+ tail ∧
     name ≠ "" ∧ spaceless name = true ∧ blank pre = true ∧
     (tail = "" ∨ ∃ c t, tail = String c t ∧ Str.is_space c = true)).
Proof.
  pose (ot := mkObjType "command" ["command"] "function" 1).
  assert (H1 : object_types "command" = Some ot) by reflexivity.
  split; [exact H1|].
  exact (handle_signature_first_word "command" ot {["prefix-arg" := "C-u"]}
           " flycheck-buffer  t" [] H1).
Defined.

(** * Slots and structs *)



(** X13: [process_link] never changes the title, and it returns only for a
    bare reference: when it returns, the target without its leading tildes
    has no space, the title is the one it was given, and the target is the
    stripped one, with the current struct and a dash in front when there is
    a current struct. *)
Theorem process_link_returns current_struct has_explicit_title title target
    title' target' :
  EmacsLispSlotXRefRole.process_link current_struct has_explicit_title title
    target = Ok (title', target') →
  title' = title ∧
  Str.cut_space (Str.lstrip_tilde target) = None ∧
  target' = match current_struct with
            | Some struct =>
                if Str.truthy struct
                then struct +:+ "-" +:+ Str.lstrip_tilde target
                else Str.lstrip_tilde target
            | None => Str.lstrip_tilde target
            end.
Proof.
  unfold EmacsLispSlotXRefRole.process_link, Str.split_space_once.
  destruct (Str.cut_space (Str.lstrip_tilde target)) as [[before after]|];
    simpl; [done|].
  destruct current_struct as [struct|]; [destruct (Str.truthy struct)|];
    by intros [= <- <-].
Qed.

Lemma process_link_returns_witness :
  EmacsLispSlotXRefRole.process_link (Some "flycheck-error") false "~line"
    "~line" = Ok ("~line", "flycheck-error-line") ∧
  "~line" = "~line" ∧
  Str.cut_space (Str.lstrip_tilde "~line") = None ∧
  "flycheck-error-line"
  = (if Str.truthy "flycheck-error"
     then "flycheck-error" +:+ "-" +:+ Str.lstrip_tilde "~line"
     else Str.lstrip_tilde "~line").
Proof.
  assert (H1 : EmacsLispSlotXRefRole.process_link (Some "flycheck-error")
                 false "~line" "~line"
               = Ok ("~line", "flycheck-error-line")) by reflexivity.
  split; [exact H1|].
  exact (process_link_returns (Some "flycheck-error") false "~line" "~line"
           "~line" "flycheck-error-line" H1).
Defined.



(** X15: the struct context does not nest.  When a struct directive with a
    name closes inside another one, no struct is current any more: a slot
    directive that follows in the outer struct raises [ValueError], and the
    [after_content] of the outer struct raises [KeyError]. *)
Theorem nested_struct_drops_context outer outer_names inner inner_names st
    options sig signode :
  blank sig = false →
  let st1 := EmacsLispCLStruct.before_content (outer :: outer_names) st in
  let st2 := EmacsLispCLStruct.before_content (inner :: inner_names) st1 in
  let st3 := (EmacsLispCLStruct.after_content st2).2 in
  env_cl_struct st2 = Some inner ∧
  (EmacsLispCLStruct.after_content st2).1 = Ok () ∧
  env_cl_struct st3 = None ∧
  (EmacsLispCLSlot.handle_signature (env_cl_struct st3) options sig signode).1
  = Raise (ValueError "Missing containing structure") ∧
  EmacsLispCLStruct.after_content st3
  = (Raise (KeyError "el:cl-struct"), st3).
Proof.
  intros Hsig. simpl. split_and!; try done.
  unfold EmacsLispCLSlot.handle_signature, EmacsLispSymbol.handle_signature.
  destruct (Str.split sig) as [|name arguments] eqn:Hsplit; [|done].
  apply split_words_nil in Hsplit as [_ Hblank]. congruence.
Qed.

Lemma nested_struct_drops_context_witness :
  blank "line" = false ∧
  let st := mkState "dev/api" None ∅ ∅ [] [] in
  let st1 := EmacsLispCLStruct.before_content ("flycheck-error" :: []) st in
  let st2 := EmacsLispCLStruct.before_content ("flycheck-checker" :: []) st1 in
  let st3 := (EmacsLispCLStruct.after_content st2).2 in
  env_cl_struct st2 = Some "flycheck-checker" ∧
  (EmacsLispCLStruct.after_content st2).1 = Ok () ∧
  env_cl_struct st3 = None ∧
  (EmacsLispCLSlot.handle_signature (env_cl_struct st3) ∅ "line" []).1
  = Raise (ValueError "Missing containing structure") ∧
  EmacsLispCLStruct.after_content st3
  = (Raise (KeyError "el:cl-struct"), st3).
Proof.
  assert (H1 : blank "line" = false) by reflexivity.
  split; [exact H1|].
  exact (nested_struct_drops_context "flycheck-error" [] "flycheck-checker"
           [] (mkState "dev/api" None ∅ ∅ [] []) ∅ "line" [] H1).
Defined.

(** * Function signatures *)

Module Text.

(** [s.split(' ')]: cut at every single space, empty pieces included. *)
Fixpoint split_on_space (s : string) : list string :=
  match s with
  | EmptyString => [EmptyString]
  | String c s' =>
      if Ascii.eqb c " " then EmptyString :: split_on_space s'
      else
        match split_on_space s' with
        | piece :: pieces => String c piece :: pieces
        | [] => [String c EmptyString]
        end
  end.

(** [s.startswith('&')] *)
Definition startswith_amp (s : string) : bool :=
  match s with
  | String c _ => Ascii.eqb c "&"
  | EmptyString => false
  end.

(** The number of single spaces in [s]. *)
Fixpoint count_spaces (s : string) : nat :=
  match s with
  | EmptyString => 0
  | String c s' => (if Ascii.eqb c " " then 1 else 0) + count_spaces s'
  end.

End Text.

(** The children of a parameter list: [addnodes.desc_annotation] for a
    keyword such as [&optional], [el_parameter] (with [noemph] set) for a
    parameter. *)
Inductive param_node : Type :=
  | Desc_annotation (text : string)
  | El_parameter (text : string) (noemph : bool).

(** The children of the signature node of a function: what the directive
    for a symbol adds, and the parameter list with its raw source. *)
Inductive function_sig_node : Type :=
  | Sig (node : sig_node)
  | El_parameterlist (rawsource : string) (children : list param_node).

Module EmacsLispFunction.

(** The node made for one argument. *)
Definition param_of (arg : string) : param_node :=
  if Text.startswith_amp arg
  then Desc_annotation (" " +:+ arg +:+ " ")
  else El_parameter arg true.

(** [handle_signature(sig, signode)] of the directive named [objtype]
    ([function] or [macro]) with the options [options].
    [EmacsLispSymbol.handle_signature] only appends to the signature node,
    so it is run on an empty node and what it appended is put on
    [signode]. *)
Definition handle_signature (objtype : string) (options : gmap string string)
    (sig : string) (signode : list function_sig_node)
  : result string * list function_sig_node :=
  match Text.split_on_space sig with
  | [] => (Raise (IndexError "list index out of range"), signode)
  | name :: arguments =>
      match EmacsLispSymbol.handle_signature objtype options name [] with
      | (Raise e, _) => (Raise e, signode)
      | (Ok name, added) =>
          let paramlist :=
            El_parameterlist (Str.join " " arguments)
              (param_of <$> arguments) in
          (Ok name, signode ++ (Sig <$> added) ++ [paramlist])
      end
  end.

End EmacsLispFunction.

(** ** The HTML visitor of a parameter list *)

(** The attributes of the HTML translator that the visitor sets. *)
Record html_translator : Type := mkHtml {
  html_body : list string;
  first_param : nat;
  optional_param_level : nat;
  required_params_left : nat;
  param_separator : string
}.

(** [isinstance(c, addnodes.desc_parameter)]: [el_parameter] is a subclass
    of [desc_parameter], [desc_annotation] is not. *)
Definition is_desc_parameter (c : param_node) : bool :=
  match c with
  | El_parameter _ _ => true
  | Desc_annotation _ => false
  end.

(** [visit_el_parameterlist_html(self, node)] with the children of the
    node; [child_text_separator] of [el_parameterlist] is a space. *)
Definition visit_el_parameterlist_html (self : html_translator)
    (children : list param_node) : html_translator :=
  mkHtml (html_body self ++ [" "]) 1 0
    (sum_list ((λ c, if is_desc_parameter c then 1 else 0) <$> children))
    " ".

(** ** Properties *)

Lemma handle_signature_appends objtype options sig signode :
  EmacsLispSymbol.handle_signature objtype options sig signode
  = match EmacsLispSymbol.handle_signature objtype options sig [] with
    | (Ok name, added) => (Ok name, signode ++ added)
    | (Raise e, _) => (Raise e, signode)
    end.
Proof.
  unfold EmacsLispSymbol.handle_signature.
  destruct (Str.split sig) as [|name arguments]; [done|].
  by destruct (EmacsLispSymbol.self_make_type_annotation objtype options).
Qed.

(** No piece has a space in it. *)
Lemma split_on_space_pieces (s : string) :
  Forall (λ piece, Text.count_spaces piece = 0) (Text.split_on_space s).
Proof.
  induction s as [|c s IH]; simpl; [by constructor|].
  destruct (Ascii.eqb c " ") eqn:Hc; [by constructor|].
  destruct (Text.split_on_space s) as [|piece pieces];
    [constructor; [simpl; by rewrite Hc | constructor]|].
  apply Forall_cons in IH as [Hpiece Hpieces].
  constructor; [simpl; by rewrite Hc, Hpiece | done].
Qed.

Lemma split_on_space_cons (s : string) :
  ∃ first arguments, Text.split_on_space s = first :: arguments.
Proof.
  destruct s as [|c s]; simpl; [by eexists _, _|].
  destruct (Ascii.eqb c " "); [by eexists _, _|].
  destruct (Text.split_on_space s); by eexists _, _.
Qed.

Lemma split_on_space_length (s : string) :
  length (Text.split_on_space s) = S (Text.count_spaces s).
Proof.
  induction s as [|c s IH]; simpl; [done|].
  destruct (Ascii.eqb c " "); simpl; [by rewrite IH|].
  destruct (Text.split_on_space s); simpl in *; [done | lia].
Qed.

(** Joining the pieces with spaces gives the string back. *)
Lemma split_on_space_join (s : string) :
  Str.join " " (Text.split_on_space s) = s.
Proof.
  unfold Str.join. induction s as [|c s IH]; [done|]. simpl.
  destruct (Ascii.eqb c " ") eqn:Hc.
  - apply Ascii.eqb_eq in Hc as ->.
    destruct (split_on_space_cons s) as (first & arguments & Hs).
    rewrite Hs in *. simpl in *. rewrite string_app_nil_l.
    rewrite string_app_cons, string_app_nil_l. by rewrite IH.
  - destruct (split_on_space_cons s) as (first & arguments & Hs).
    rewrite Hs in *. simpl in *.
    destruct arguments as [|a arguments]; [by rewrite IH|].
    rewrite string_app_cons. by rewrite IH.
Qed.

(** X16: the directive for a function or a macro cuts its signature at
    every single space, into pieces without a space.  It raises
    [IndexError], with the signature node untouched, exactly when the piece
    before the first space is blank; otherwise it returns the first word of
    that piece (not empty, free of white space, preceded in the piece by
    white space only and followed by white space or by nothing) and appends
    the annotation of the object type, the name and one parameter list,
    whose raw source is the signature after its first space and which has
    one child for every space of the signature, a piece that starts with an
    ampersand giving an annotation and any other piece, an empty one
    included, a parameter. *)
Theorem function_handle_signature objtype ot options sig signode :
  directives objtype = Some Class_Function →
  object_types objtype = Some ot →
  ∃ first arguments,
    sig = Str.join " " (first :: arguments) ∧
    Forall (λ piece, Text.count_spaces piece = 0) (first :: arguments) ∧
    length arguments = Text.count_spaces sig ∧
    let r := EmacsLispFunction.handle_signature objtype options sig signode in
    (blank first = true ∧
     r = (Raise (IndexError "list index out of range"), signode)) ∨
    (blank first = false ∧
     ∃ name pre tail,
       first = pre +:+ name +:+ tail ∧ blank pre = true ∧
       name ≠ "" ∧ spaceless name = true ∧
       (tail = "" ∨ ∃ c t, tail = String c t ∧ Str.is_space c = true) ∧
       r = (Ok name,
            signode ++
            [Sig (El_annotation (Str.title (lname ot) +:+ " ") false);
             Sig (Desc_name name);
             El_parameterlist (Str.join " " arguments)
               (EmacsLispFunction.param_of <$> arguments)])).
Proof.
  intros Hclass Hot.
  assert (annotation_of objtype ot options
          = El_annotation (Str.title (lname ot) +:+ " ") false) as Hann.
  { unfold annotation_of.
    destruct (String.eqb objtype "command") eqn:Hc; [|done].
    apply String.eqb_eq in Hc as ->. discriminate Hclass. }
  destruct (split_on_space_cons sig) as (first & arguments & Hsplit).
  exists first, arguments. split_and!.
  - by rewrite <- Hsplit, split_on_space_join.
  - rewrite <- Hsplit. apply split_on_space_pieces.
  - pose proof (split_on_space_length sig) as Hlen.
    rewrite Hsplit in Hlen. simpl in Hlen. lia.
  - simpl. unfold EmacsLispFunction.handle_signature. rewrite Hsplit.
    destruct (symbol_handle_signature_cases objtype ot options first [] Hot)
      as [[Hblank ->] | (Hblank & name & pre & tail & -> & Hfirst & Hne & Hsp
                          & Hpre & Htail)]; simpl.
    + by left.
    + right. split; [done|]. exists name, pre, tail. rewrite Hann.
      by split_and!.
Qed.

Lemma function_handle_signature_witness :
  let ot := mkObjType "function" ["function"] "function" 0 in
  directives "function" = Some Class_Function ∧
  object_types "function" = Some ot ∧
  ∃ first arguments,
    "flycheck-buffer &optional  force" = Str.join " " (first :: arguments) ∧
    Forall (λ piece, Text.count_spaces piece = 0) (first :: arguments) ∧
    length arguments = Text.count_spaces "flycheck-buffer &optional  force" ∧
    let r := EmacsLispFunction.handle_signature "function" ∅
               "flycheck-buffer &optional  force" [] in
    (blank first = true ∧
     r = (Raise (IndexError "list index out of range"), [])) ∨
    (blank first = false ∧
     ∃ name pre tail,
       first = pre +:+ name +:+ tail ∧ blank pre = true ∧
       name ≠ "" ∧ spaceless name = true ∧
       (tail = "" ∨ ∃ c t, tail = String c t ∧ Str.is_space c = true) ∧
       r = (Ok name,
            [] ++
            [Sig (El_annotation (Str.title (lname ot) +:+ " ") false);
             Sig (Desc_name name);
             El_parameterlist (Str.join " " arguments)
               (EmacsLispFunction.param_of <$> arguments)])).
Proof.
  pose (ot := mkObjType "function" ["function"] "function" 0).
  assert (H0 : directives "function" = Some Class_Function) by reflexivity.
  assert (H1 : object_types "function" = Some ot) by reflexivity.
  split; [exact H0|]. split; [exact H1|].
  exact (function_handle_signature "function" ot ∅
           "flycheck-buffer &optional  force" [] H0 H1).
Defined.

(** X17: when the HTML translator enters the parameter list of a function
    signature, the count of required parameters it sets is the number of
    arguments of the signature that do not start with an ampersand; it
    appends one space to the body and resets its other parameter fields. *)
Theorem html_required_params (self : html_translator)
    (arguments : list string) :
  visit_el_parameterlist_html self (EmacsLispFunction.param_of <$> arguments)
  = mkHtml (html_body self ++ [" "]) 1 0
      (length (filter (λ arg, Text.startswith_amp arg = false) arguments))
      " ".
Proof.
  unfold visit_el_parameterlist_html. f_equal.
  induction arguments as [|arg arguments IH]; [done|].
  rewrite filter_cons. csimpl. rewrite IH.
  unfold EmacsLispFunction.param_of.
  by destruct (Text.startswith_amp arg).
Qed.

(** * The [varcode] role *)

Module Metavar.

(** The longest prefix of [s] without a closing brace, and what follows. *)
Fixpoint take_body (s : string) : string * string :=
  match s with
  | EmptyString => (EmptyString, EmptyString)
  | String c s' =>
      if Ascii.eqb c "}" then (EmptyString, s)
      else let '(body, rest) := take_body s' in (String c body, rest)
  end.

(** A match of [METAVAR_RE], the pattern [{([^}]+)}], at the start of [s]:
    the group and the length of the match.  The class takes every
    character but the closing brace, so the group is the text up to the
    next closing brace; there is no match when that text is empty or when
    no closing brace follows. *)
Definition match_at (s : string) : option (string * nat) :=
  match s with
  | String c s' =>
      if Ascii.eqb c "{" then
        match take_body s' with
        | (String b body, String _ _) =>
            Some (String b body, String.length (String b body) + 2)
        | _ => None
        end
      else None
  | EmptyString => None
  end.

(** [METAVAR_RE.finditer(text)] from position [pos], as triples of
    [match.start()], [match.end()] and [match.group(1)]: the matches do not
    overlap, so the [skip] characters of a match that was found are passed
    over. *)
Fixpoint finditer_from (pos skip : nat) (s : string)
  : list (nat * nat * string) :=
  match s with
  | EmptyString => []
  | String _ s' =>
      match skip with
      | S skip' => finditer_from (S pos) skip' s'
      | 0 =>
          match match_at s with
          | Some (group, len) =>
              (pos, pos + len, group) :: finditer_from (S pos) (len - 1) s'
          | None => finditer_from (S pos) 0 s'
          end
      end
  end.

Definition finditer (text : string) : list (nat * nat * string) :=
  finditer_from 0 0 text.

End Metavar.

(** [text\[i:\]] *)
Fixpoint string_drop (i : nat) (s : string) : string :=
  match i, s with
  | S i', String _ s' => string_drop i' s'
  | _, _ => s
  end.

(** [text\[:n\]] *)
Fixpoint string_take (n : nat) (s : string) : string :=
  match n, s with
  | S n', String c s' => String c (string_take n' s')
  | _, _ => EmptyString
  end.

(** [text\[i:j\]] for indices that are not negative. *)
Definition slice (text : string) (i j : nat) : string :=
  string_take (j - i) (string_drop i text).

(** The children of the literal node: [nodes.Text(data, rawsource)] and
    [el_metavariable(rawsource, text)]. *)
Inductive inline_node : Type :=
  | Text_node (data rawsource : string)
  | El_metavariable (rawsource text : string).

(** [nodes.literal(rawtext, '', role=role, classes=\[role\])] with its
    children. *)
Record literal_node : Type := mkLiteral {
  lit_rawsource : string;
  lit_role : string;
  lit_classes : list string;
  lit_children : list inline_node
}.

(** The body of the loop over the matches: [acc] is [position] and the
    children so far. *)
Definition add_match (text : string) (acc : nat * list inline_node)
    (m : nat * nat * string) : nat * list inline_node :=
  let '(position, children) := acc in
  let '(m_start, m_end, group) := m in
  let children :=
    if (position <? m_start)%nat then
      let trailing_text := slice text position m_start in
      children ++ [Text_node trailing_text trailing_text]
    else children in
  (m_end, children ++ [El_metavariable group group]).

(** What follows the loop. *)
Definition add_rest (text : string) (acc : nat * list inline_node)
  : list inline_node :=
  let '(position, children) := acc in
  if (position <? String.length text)%nat then
    children ++ [Text_node (string_drop position text)
                   (string_drop position text)]
  else children.

Section Varcode.

(** [docutils.utils.unescape] of the host. *)
Variable unescape : string → string.

(** [varcode_role(role, rawtext, text, ...)]: the nodes and the messages it
    returns. *)
Definition varcode_role (role rawtext text : string)
  : list literal_node * list string :=
  let text := unescape text in
  let children :=
    add_rest text (foldl (add_match text) (0, []) (Metavar.finditer text)) in
  ([mkLiteral rawtext role [role] children], []).

End Varcode.

(** [var_role(role, rawtext, text, ...)] *)
Definition var_role (role rawtext text : string)
  : list inline_node * list string :=
  ([El_metavariable rawtext text], []).

(** The text a child stands for: a metavariable stands for its name in
    braces. *)
Definition child_source (c : inline_node) : string :=
  match c with
  | Text_node data _ => data
  | El_metavariable _ text => "{" +:+ text +:+ "}"
  end.

Definition children_source (children : list inline_node) : string :=
  foldr (λ c rest, child_source c +:+ rest) "" children.

(** A text node has some text, which is also its raw source; a
    metavariable has a name, which is also its raw source and has no
    closing brace in it. *)
Definition child_ok (c : inline_node) : Prop :=
  match c with
  | Text_node data rawsource => data ≠ "" ∧ rawsource = data
  | El_metavariable rawsource text =>
      rawsource = text ∧ text ≠ "" ∧
      all_chars (λ c, negb (Ascii.eqb c "}")) text = true
  end.

(** ** Slices *)

Lemma string_length_app (a b : string) :
  String.length (a +:+ b) = String.length a + String.length b.
Proof.
  induction a as [|c a IH]; [done|]. rewrite string_app_cons. simpl.
  by rewrite IH.
Qed.

Lemma string_drop_app_le (p : nat) (a b : string) :
  (p ≤ String.length a)%nat → string_drop p (a +:+ b) = string_drop p a +:+ b.
Proof.
  revert p. induction a as [|c a IH]; intros p Hp; simpl in Hp.
  - by replace p with 0 by lia; destruct b.
  - destruct p as [|p]; [done|]. rewrite string_app_cons. simpl.
    apply IH. lia.
Qed.

Lemma string_drop_app_length (a b : string) :
  string_drop (String.length a) (a +:+ b) = b.
Proof.
  induction a as [|c a IH]; [by destruct b|].
  rewrite string_app_cons. simpl. exact IH.
Qed.

Lemma string_take_app_length (a b : string) :
  string_take (String.length a) (a +:+ b) = a.
Proof.
  induction a as [|c a IH]; [by destruct b|].
  rewrite string_app_cons. simpl. by rewrite IH.
Qed.

Lemma string_length_drop (p : nat) (a : string) :
  String.length (string_drop p a) = String.length a - p.
Proof.
  revert p. induction a as [|c a IH]; intros [|p]; simpl; try done.
Qed.

Lemma string_length_0 (a : string) : String.length a = 0 → a = "".
Proof. by destruct a. Qed.

(** ** Matches *)

Lemma take_body_spec (s body rest : string) :
  Metavar.take_body s = (body, rest) →
  s = body +:+ rest ∧
  all_chars (λ c, negb (Ascii.eqb c "}")) body = true ∧
  (rest = "" ∨ ∃ rest', rest = String "}" rest').
Proof.
  revert body rest. induction s as [|c s IH]; intros body rest; simpl.
  - intros [= <- <-]. auto.
  - destruct (Ascii.eqb c "}") eqn:Hc.
    + intros [= <- <-]. apply Ascii.eqb_eq in Hc as ->.
      split_and!; [done | done | right; eauto].
    + destruct (Metavar.take_body s) as [body' rest'].
      intros [= <- <-]. destruct (IH _ _ eq_refl) as (-> & Hbody & Hrest).
      split_and!; [done | | done]. simpl. by rewrite Hc.
Qed.

Lemma match_at_spec (s group : string) (len : nat) :
  Metavar.match_at s = Some (group, len) →
  ∃ rest,
    s = "{" +:+ group +:+ "}" +:+ rest ∧
    len = String.length group + 2 ∧
    group ≠ "" ∧
    all_chars (λ c, negb (Ascii.eqb c "}")) group = true.
Proof.
  destruct s as [|c s]; simpl; [done|].
  destruct (Ascii.eqb c "{") eqn:Hc; [|done].
  apply Ascii.eqb_eq in Hc as ->.
  destruct (Metavar.take_body s) as [body rest] eqn:Hbody.
  destruct body as [|b body]; [done|]. destruct rest as [|r rest]; [done|].
  intros [= <- <-].
  destruct (take_body_spec _ _ _ Hbody) as (-> & Hall & [Hrest|[rest' Hrest]]);
    [done|].
  injection Hrest as -> ->. exists rest'. by split_and!.
Qed.

Lemma children_source_app (c1 c2 : list inline_node) :
  children_source (c1 ++ c2) = children_source c1 +:+ children_source c2.
Proof.
  unfold children_source. induction c1 as [|c c1 IH]; [done|]. simpl.
  by rewrite IH, string_app_assoc.
Qed.

Lemma finditer_from_cons (pos skip : nat) (ch : ascii) (s : string) :
  Metavar.finditer_from pos skip (String ch s)
  = match skip with
    | S skip' => Metavar.finditer_from (S pos) skip' s
    | 0 =>
        match Metavar.match_at (String ch s) with
        | Some (group, len) =>
            (pos, pos + len, group)
            :: Metavar.finditer_from (S pos) (len - 1) s
        | None => Metavar.finditer_from (S pos) 0 s
        end
    end.
Proof. reflexivity. Qed.

(** The loop and what follows it, from the middle of the text: [pre] has
    been scanned, [s] is still to scan, [position] is [p] and the children
    so far are [c]. *)
Lemma varcode_loop (s : string) :
  ∀ (text pre : string) (skip p : nat) (c : list inline_node),
    text = pre +:+ s →
    (p ≤ String.length pre + skip)%nat →
    let children :=
      add_rest text
        (foldl (add_match text) (p, c)
           (Metavar.finditer_from (String.length pre) skip s)) in
    children_source children = children_source c +:+ string_drop p text ∧
    (Forall child_ok c → Forall child_ok children).
Proof.
  induction s as [|ch s IH]; intros text pre skip p c Htext Hp.
  - simpl. rewrite string_app_nil_r in Htext. subst text.
    destruct (p <? String.length pre)%nat eqn:Hlt.
    + apply Nat.ltb_lt in Hlt. split.
      * rewrite children_source_app. unfold children_source at 2. simpl.
        by rewrite string_app_nil_r.
      * intros Hc. apply Forall_app. split; [done|].
        apply Forall_singleton. split; [|done]. intros Hempty.
        pose proof (string_length_drop p pre) as Hlen.
        rewrite Hempty in Hlen. simpl in Hlen. lia.
    + apply Nat.ltb_ge in Hlt. split; [|done].
      rewrite (string_length_0 (string_drop p pre)), string_app_nil_r; [done|].
      rewrite string_length_drop. lia.
  - assert (text = (pre +:+ String ch "") +:+ s) as Htext'.
    { rewrite Htext, string_app_assoc. done. }
    assert (String.length (pre +:+ String ch "") = S (String.length pre))
      as Hlen'.
    { rewrite string_length_app. simpl. lia. }
    rewrite finditer_from_cons. rewrite <- Hlen'.
    destruct skip as [|skip].
    + destruct (Metavar.match_at (String ch s)) as [[group len]|] eqn:Hmatch.
      * destruct (match_at_spec _ _ _ Hmatch) as (rest & Hs & -> & Hne & Hall).
        cbn [foldl add_match].
        set (D := string_drop p pre).
        assert (p ≤ String.length pre)%nat as Hp' by lia.
        assert (String.length D = String.length pre - p) as HD
            by apply string_length_drop.
        assert (string_drop p text
                = D +:+ "{" +:+ group +:+ "}" +:+ rest) as Hdrop.
        { rewrite Htext, Hs. by apply string_drop_app_le. }
        set (c' := if (p <? String.length pre)%nat
                   then c ++ [Text_node (slice text p (String.length pre))
                                (slice text p (String.length pre))]
                   else c).
        assert (children_source c' = children_source c +:+ D
                ∧ (Forall child_ok c → Forall child_ok c')) as [Hsrc Hok].
        { unfold c'. destruct (p <? String.length pre)%nat eqn:Hlt.
          - apply Nat.ltb_lt in Hlt.
            assert (slice text p (String.length pre) = D) as ->.
            { unfold slice. rewrite Hdrop, <- HD.
              apply string_take_app_length. }
            split.
            + rewrite children_source_app. unfold children_source at 2.
              simpl. by rewrite string_app_nil_r.
            + intros Hc. apply Forall_app. split; [done|].
              apply Forall_singleton. split; [|done]. intros Hempty.
              rewrite Hempty in HD. simpl in HD. lia.
          - apply Nat.ltb_ge in Hlt.
            rewrite (string_length_0 D) by lia.
            by rewrite string_app_nil_r. }
        fold c'.
        destruct (IH text (pre +:+ String ch "")
                    (String.length group + 2 - 1)
                    (String.length pre + (String.length group + 2))
                    (c' ++ [El_metavariable group group]) Htext')
          as [IHsrc IHok]; [lia|].
        cbv zeta in IHsrc, IHok. split.
        -- rewrite IHsrc. rewrite children_source_app, Hsrc, Hdrop.
           unfold children_source at 2. simpl.
           assert (string_drop
                     (String.length pre + (String.length group + 2)) text
                   = rest) as ->.
           { rewrite Htext, Hs.
             replace (pre +:+ "{" +:+ group +:+ "}" +:+ rest)
               with ((pre +:+ "{" +:+ group +:+ "}") +:+ rest)
               by (by rewrite !string_app_assoc).
             replace (String.length pre + (String.length group + 2))
               with (String.length (pre +:+ "{" +:+ group +:+ "}")).
             - apply string_drop_app_length.
             - rewrite !string_length_app. simpl. lia. }
           by rewrite string_app_nil_r, !string_app_assoc.
        -- intros Hc. apply IHok, Forall_app. split; [by apply Hok|].
           apply Forall_singleton. by split_and!.
      * apply (IH text (pre +:+ String ch "") 0 p c Htext'). lia.
    + apply (IH text (pre +:+ String ch "") skip p c Htext'). lia.
Qed.

Lemma varcode_children_spec (text : string) :
  let children :=
    add_rest text (foldl (add_match text) (0, []) (Metavar.finditer text)) in
  children_source children = text ∧ Forall child_ok children.
Proof.
  destruct (varcode_loop text text "" 0 0 [] eq_refl) as [Hsrc Hok];
    [simpl; lia|].
  simpl in *. split; [exact Hsrc | by apply Hok].
Qed.

Lemma finditer_from_no_brace (s : string) (pos : nat) :
  all_chars (λ c, negb (Ascii.eqb c "{")) s = true →
  Metavar.finditer_from pos 0 s = [].
Proof.
  revert pos. induction s as [|c s IH]; intros pos; [done|].
  simpl. intros [Hc Hs]%andb_prop. apply negb_true_iff in Hc.
  rewrite Hc. by apply IH.
Qed.

(** X18: the children of the literal node that [varcode_role] returns
    spell the unescaped text: written one after the other, each
    metavariable in its braces, they give that text back, so the role
    neither drops nor adds nor reorders a character. *)
Theorem varcode_role_source unescape role rawtext text :
  ∃ children,
    varcode_role unescape role rawtext text
    = ([mkLiteral rawtext role [role] children], []) ∧
    children_source children = unescape text.
Proof.
  eexists. split; [reflexivity|].
  apply (varcode_children_spec (unescape text)).
Qed.

(** X19: [varcode_role] makes no empty node: every text child has some
    text, every metavariable has a name, and no name has a closing brace
    in it; the raw source of a child is its text. *)
Theorem varcode_role_children unescape role rawtext text :
  ∃ children,
    varcode_role unescape role rawtext text
    = ([mkLiteral rawtext role [role] children], []) ∧
    Forall child_ok children.
Proof.
  eexists. split; [reflexivity|].
  apply (varcode_children_spec (unescape text)).
Qed.

(** X20: a text without an opening brace has no metavariable: the literal
    node gets the unescaped text as its only child, and no child when that
    text is empty. *)
Theorem varcode_role_plain unescape role rawtext text :
  all_chars (λ c, negb (Ascii.eqb c "{")) (unescape text) = true →
  varcode_role unescape role rawtext text
  = ([mkLiteral rawtext role [role]
        (match unescape text with
         | EmptyString => []
         | String _ _ => [Text_node (unescape text) (unescape text)]
         end)], []).
Proof.
  intros Hplain. unfold varcode_role, Metavar.finditer.
  rewrite finditer_from_no_brace by done. simpl.
  by destruct (unescape text).
Qed.

Lemma varcode_role_plain_witness :
  all_chars (λ c, negb (Ascii.eqb c "{")) (id "M-x flycheck-mode") = true ∧
  varcode_role id "varcode" ":varcode:`M-x flycheck-mode`"
    "M-x flycheck-mode"
  = ([mkLiteral ":varcode:`M-x flycheck-mode`" "varcode" ["varcode"]
        (match id "M-x flycheck-mode" with
         | EmptyString => []
         | String _ _ =>
             [Text_node (id "M-x flycheck-mode") (id "M-x flycheck-mode")]
         end)], []).
Proof.
  assert (H1 : all_chars (λ c, negb (Ascii.eqb c "{"))
                 (id "M-x flycheck-mode") = true) by reflexivity.
  split; [exact H1|].
  exact (varcode_role_plain id "varcode" ":varcode:`M-x flycheck-mode`"
           "M-x flycheck-mode" H1).
Defined.

(** * The objects of the domain *)

(** One entry of the registry: a symbol, one of its scopes, and what the
    scope maps to. *)
Record entry : Type := mkEntry {
  e_symbol : string;
  e_scope : string;
  e_docname : string;
  e_objtype : string
}.

(** A tuple [(name, dispname, type, docname, anchor, priority)] that
    [get_objects] yields. *)
Record object_tuple : Type := mkObject {
  obj_name : string;
  obj_dispname : string;
  obj_type : string;
  obj_docname : string;
  obj_anchor : string;
  obj_priority : nat
}.

(** The entries in the order of the two nested loops of [get_objects]. *)
Definition registry_entries (symbols : registry) : list entry :=
  map_to_list symbols ≫= λ '(symbol, scopes),
    (λ '(scope, (docname, objtype)), mkEntry symbol scope docname objtype)
      <$> map_to_list scopes.

(** The tuple for one entry; the subscription of [object_types] raises for
    an object type that the domain does not have. *)
Definition object_of (e : entry) : result object_tuple :=
  ot ← object_types_getitem (e_objtype e);
  mret (mkObject (e_symbol e) (e_symbol e) (e_objtype e) (e_docname e)
          (make_target (e_scope e) (e_symbol e)) (searchprio ot)).

(** The generator over [entries]: the tuples it yields, and the exception
    that ends it, if one does. *)
Fixpoint yield_objects (entries : list entry)
  : list object_tuple * option exn :=
  match entries with
  | [] => ([], None)
  | e :: entries' =>
      match object_of e with
      | Raise ex => ([], Some ex)
      | Ok t =>
          let '(yielded, raised) := yield_objects entries' in
          (t :: yielded, raised)
      end
  end.

(** [EmacsLispDomain.get_objects()] *)
Definition get_objects (symbols : registry)
  : list object_tuple * option exn :=
  yield_objects (registry_entries symbols).

(** ** Properties *)

Lemma elem_of_registry_entries (symbols : registry) (e : entry) :
  e ∈ registry_entries symbols ↔
  lookup_symbol symbols (e_symbol e) (e_scope e)
  = Some (e_docname e, e_objtype e).
Proof.
  unfold registry_entries, lookup_symbol.
  rewrite list_elem_of_bind. split.
  - intros ([symbol scopes] & He & Hsym).
    apply list_elem_of_fmap in He as ([scope [docname objtype]] & -> & Hsc).
    apply elem_of_map_to_list in Hsym, Hsc. simpl. by rewrite Hsym.
  - destruct e as [symbol scope docname objtype]. simpl.
    destruct (symbols !! symbol) as [scopes|] eqn:Hsym; simpl; [|done].
    intros Hsc. exists (symbol, scopes). split.
    + apply list_elem_of_fmap. exists (scope, (docname, objtype)).
      split; [done|]. by apply elem_of_map_to_list.
    + by apply elem_of_map_to_list.
Qed.

Lemma NoDup_registry_entries (symbols : registry) :
  NoDup (registry_entries symbols).
Proof.
  unfold registry_entries. apply NoDup_bind.
  - intros [sym1 sc1] [sym2 sc2] e Hin1 Hin2 He1 He2.
    apply list_elem_of_fmap in He1 as ([s1 [d1 k1]] & -> & _).
    apply list_elem_of_fmap in He2 as ([s2 [d2 k2]] & [= -> _ _ _] & _).
    apply elem_of_map_to_list in Hin1, Hin2. congruence.
  - intros [symbol scopes] _. apply NoDup_fmap_2_strong.
    + intros [s1 [d1 k1]] [s2 [d2 k2]] _ _ [= -> -> ->]. done.
    + apply NoDup_map_to_list.
  - apply NoDup_map_to_list.
Qed.

Lemma yield_objects_elem (entries : list entry) (t : object_tuple) :
  t ∈ (yield_objects entries).1 →
  ∃ e, e ∈ entries ∧ object_of e = Ok t.
Proof.
  induction entries as [|e entries IH]; simpl.
  - intros Hin. by apply elem_of_nil in Hin.
  - destruct (object_of e) as [t0|ex] eqn:He; simpl.
    + destruct (yield_objects entries) as [yielded raised]. simpl in *.
      intros [->|Hin]%elem_of_cons.
      * exists e. split; [by left | done].
      * destruct (IH Hin) as (e' & Hin' & He'). exists e'.
        split; [by right | done].
    + intros Hin. by apply elem_of_nil in Hin.
Qed.

Lemma object_of_typed (e : entry) (ot : ObjType) :
  object_types (e_objtype e) = Some ot →
  object_of e
  = Ok (mkObject (e_symbol e) (e_symbol e) (e_objtype e) (e_docname e)
          (make_target (e_scope e) (e_symbol e)) (searchprio ot)).
Proof.
  intros Hot. unfold object_of, object_types_getitem. by rewrite Hot.
Qed.

Lemma yield_objects_all (entries : list entry) :
  (∀ e, e ∈ entries → is_Some (object_types (e_objtype e))) →
  (yield_objects entries).2 = None ∧
  obj_anchor <$> (yield_objects entries).1
  = (λ e, make_target (e_scope e) (e_symbol e)) <$> entries ∧
  ∀ e t, e ∈ entries → object_of e = Ok t → t ∈ (yield_objects entries).1.
Proof.
  induction entries as [|e entries IH]; intros Hall.
  - split_and!; [done | done |]. intros e t Hin. by apply elem_of_nil in Hin.
  - destruct (Hall e) as [ot Hot]; [by left|].
    destruct IH as (Hnone & Hanchors & Hmem).
    { intros e' Hin. apply Hall. by right. }
    cbn [yield_objects]. rewrite (object_of_typed e ot Hot).
    destruct (yield_objects entries) as [yielded raised]. cbn [fst snd] in *.
    split_and!; [done | by rewrite !fmap_cons, Hanchors |].
    intros e' t [->|Hin]%elem_of_cons He'.
    + rewrite (object_of_typed e ot Hot) in He'. injection He' as <-.
      by left.
    + right. by eapply Hmem.
Qed.

(** X21: in a build session [get_objects] runs to its end without an
    exception, and it yields the registry: every tuple it yields is an
    entry of the registry, with the name as display name, the target name
    of its scope as anchor and the search priority of its object type, and
    every entry of the registry is yielded. *)
Theorem get_objects_session doc2path st :
  reachable doc2path st →
  let r := get_objects (env_symbols st) in
  r.2 = None ∧
  (∀ t, t ∈ r.1 →
        ∃ s ot,
          lookup_symbol (env_symbols st) (obj_name t) s
          = Some (obj_docname t, obj_type t) ∧
          object_types (obj_type t) = Some ot ∧ scope ot = s ∧
          obj_dispname t = obj_name t ∧
          obj_anchor t = make_target s (obj_name t) ∧
          obj_priority t = searchprio ot) ∧
  (∀ name s docname objtype,
     lookup_symbol (env_symbols st) name s = Some (docname, objtype) →
     ∃ ot,
       object_types objtype = Some ot ∧
       mkObject name name objtype docname (make_target s name) (searchprio ot)
       ∈ r.1).
Proof.
  intros Hreach. simpl.
  assert (entries_typed (env_symbols st)) as Htyped.
  { revert st Hreach.
    apply (run_invariant doc2path (λ st, entries_typed (env_symbols st))).
    - intros n s' d k Hk. unfold lookup_symbol in Hk. simpl in Hk.
      by rewrite lookup_empty in Hk.
    - apply entries_typed_step. }
  destruct (yield_objects_all (registry_entries (env_symbols st)))
    as (Hnone & _ & Hmem).
  { intros e He. apply elem_of_registry_entries in He.
    destruct (Htyped _ _ _ _ He) as (ot & Hot & _). by exists ot. }
  unfold get_objects. split_and!; [done | |].
  - intros t Ht. apply yield_objects_elem in Ht as (e & He & Hobj).
    apply elem_of_registry_entries in He.
    destruct (Htyped _ _ _ _ He) as (ot & Hot & Hscope).
    unfold object_of, object_types_getitem in Hobj. rewrite Hot in Hobj.
    simpl in Hobj. injection Hobj as <-. simpl.
    exists (e_scope e), ot. by split_and!.
  - intros name s docname objtype Hlookup.
    destruct (Htyped _ _ _ _ Hlookup) as (ot & Hot & _). exists ot.
    split; [done|].
    apply (Hmem (mkEntry name s docname objtype)).
    + by apply elem_of_registry_entries.
    + unfold object_of, object_types_getitem. simpl. by rewrite Hot.
Qed.

Lemma get_objects_session_witness :
  reachable rst_path usage_session ∧
  let r := get_objects (env_symbols usage_session) in
  r.2 = None ∧
  (∀ t, t ∈ r.1 →
        ∃ s ot,
          lookup_symbol (env_symbols usage_session) (obj_name t) s
          = Some (obj_docname t, obj_type t) ∧
          object_types (obj_type t) = Some ot ∧ scope ot = s ∧
          obj_dispname t = obj_name t ∧
          obj_anchor t = make_target s (obj_name t) ∧
          obj_priority t = searchprio ot) ∧
  (∀ name s docname objtype,
     lookup_symbol (env_symbols usage_session) name s
     = Some (docname, objtype) →
     ∃ ot,
       object_types objtype = Some ot ∧
       mkObject name name objtype docname (make_target s name) (searchprio ot)
       ∈ r.1).
Proof.
  assert (H1 : reachable rst_path usage_session) by (by eexists).
  split; [exact H1|].
  exact (get_objects_session rst_path usage_session H1).
Defined.

(** X22: in a build session the anchors that [get_objects] yields are
    pairwise distinct: no two objects of the domain share a target name. *)
Theorem get_objects_anchors_distinct doc2path st :
  reachable doc2path st →
  NoDup (obj_anchor <$> (get_objects (env_symbols st)).1).
Proof.
  intros Hreach.
  assert (entries_typed (env_symbols st)) as Htyped.
  { revert st Hreach.
    apply (run_invariant doc2path (λ st, entries_typed (env_symbols st))).
    - intros n s' d k Hk. unfold lookup_symbol in Hk. simpl in Hk.
      by rewrite lookup_empty in Hk.
    - apply entries_typed_step. }
  destruct (yield_objects_all (registry_entries (env_symbols st)))
    as (_ & Hanchors & _).
  { intros e He. apply elem_of_registry_entries in He.
    destruct (Htyped _ _ _ _ He) as (ot & Hot & _). by exists ot. }
  unfold get_objects. rewrite Hanchors.
  apply NoDup_fmap_2_strong; [|apply NoDup_registry_entries].
  intros e1 e2 He1 He2 Heq.
  apply elem_of_registry_entries in He1, He2.
  destruct (Htyped _ _ _ _ He1) as (ot1 & Hot1 & Hs1).
  destruct (Htyped _ _ _ _ He2) as (ot2 & Hot2 & Hs2).
  apply make_target_inj in Heq as [Hscope Hsym];
    [| rewrite <- Hs1; by eapply object_types_scope
     | rewrite <- Hs2; by eapply object_types_scope].
  destruct e1, e2. simpl in *. subst. congruence.
Qed.

Lemma get_objects_anchors_distinct_witness :
  reachable rst_path usage_session ∧
  NoDup (obj_anchor <$> (get_objects (env_symbols usage_session)).1).
Proof.
  assert (H1 : reachable rst_path usage_session) by (by eexists).
  split; [exact H1|].
  exact (get_objects_anchors_distinct rst_path usage_session H1).
Defined.

(** X23: after a document is purged [get_objects] yields no object of that
    document, whatever the registry holds. *)
Theorem get_objects_after_purge docname (symbols : registry) t :
  t ∈ (get_objects (clear_doc docname symbols)).1 → obj_docname t ≠ docname.
Proof.
  intros Ht. apply yield_objects_elem in Ht as (e & He & Hobj).
  apply elem_of_registry_entries in He.
  rewrite lookup_symbol_clear_doc in He.
  unfold object_of in Hobj.
  destruct (object_types_getitem (e_objtype e)) as [ot|]; [|done].
  simpl in Hobj. injection Hobj as <-. simpl.
  destruct (lookup_symbol symbols (e_symbol e) (e_scope e)) as [[d k]|];
    simpl in He; [|done].
  case_decide; [done|]. congruence.
Qed.

Lemma get_objects_after_purge_witness :
  let symbols : registry :=
    {["flycheck-mode" := <["face" := ("index", "face")]> two_scopes]} in
  let t := mkObject "flycheck-mode" "flycheck-mode" "face" "index"
             "el.face.flycheck-mode" 0 in
  t ∈ (get_objects (clear_doc "guide/usage" symbols)).1 ∧
  obj_docname t ≠ "guide/usage".
Proof.
  assert (H1 : mkObject "flycheck-mode" "flycheck-mode" "face" "index"
                 "el.face.flycheck-mode" 0
               ∈ (get_objects
                    (clear_doc "guide/usage"
                       {["flycheck-mode" :=
                           <["face" := ("index", "face")]> two_scopes]})).1).
  { vm_compute. left. }
  split; [exact H1|].
  exact (get_objects_after_purge "guide/usage" _ _ H1).
Defined.

(** * Sessions *)

(** Every entry registered to the document being read has its target
    among the ids of that document. *)
Definition own_entries_noted (st : build_state) : Prop :=
  ∀ name s objtype,
    lookup_symbol (env_symbols st) name s = Some (env_docname st, objtype) →
    make_target s name ∈ doc_ids st.

Lemma own_entries_noted_step doc2path st e :
  own_entries_noted st → own_entries_noted (step doc2path st e).
Proof.
  intros Hinv. destruct e as [docname|objtype name lineno|names|]; simpl.
  - intros n s k. simpl. rewrite lookup_symbol_clear_doc.
    destruct (lookup_symbol (env_symbols st) n s) as [[d k']|]; simpl; [|done].
    case_decide; [done|]. congruence.
  - destruct (object_types objtype) as [ot|] eqn:Hot.
    + destruct (decide (make_target (scope ot) name ∈ doc_ids st))
        as [Hseen|Hfresh].
      * by rewrite (add_target_and_index_seen _ _ ot).
      * rewrite (add_target_and_index_fresh _ _ ot) by done.
        intros n s k. simpl. rewrite lookup_symbol_insert.
        case_decide as Hsame.
        -- destruct Hsame as [-> ->]. intros _.
           apply elem_of_union. left. by apply elem_of_singleton.
        -- intros Hl. apply elem_of_union. right. by eapply Hinv.
    + by rewrite add_target_and_index_unknown.
  - by destruct names.
  - unfold EmacsLispCLStruct.after_content. by destruct (env_cl_struct st).
Qed.

(** X24: in a build session the ids that the directives note in the
    document being read and the entries registered to that document go
    together: a target name of one of the four scopes is among the ids
    exactly when its (name, scope) pair is registered to the document. *)
Theorem session_ids_and_entries doc2path st s name :
  reachable doc2path st →
  s ∈ scope_priority →
  make_target s name ∈ doc_ids st ↔
  ∃ objtype,
    lookup_symbol (env_symbols st) name s = Some (env_docname st, objtype).
Proof.
  intros Hreach Hs. split.
  - intros Hin. by apply (reachable_ids_registered doc2path st Hreach).
  - intros [objtype Hl]. revert st Hreach name s objtype Hl Hs.
    intros st Hreach.
    assert (own_entries_noted st) as Hinv.
    { revert st Hreach. apply (run_invariant doc2path own_entries_noted).
      - intros n s' k Hk. unfold lookup_symbol in Hk. simpl in Hk.
        by rewrite lookup_empty in Hk.
      - apply own_entries_noted_step. }
    intros name s objtype Hl _. by eapply Hinv.
Qed.

Lemma session_ids_and_entries_witness :
  reachable rst_path usage_session ∧
  "variable" ∈ scope_priority ∧
  (make_target "variable" "flycheck-mode" ∈ doc_ids usage_session ↔
   ∃ objtype,
     lookup_symbol (env_symbols usage_session) "flycheck-mode" "variable"
     = Some (env_docname usage_session, objtype)).
Proof.
  assert (H1 : reachable rst_path usage_session) by (by eexists).
  assert (H2 : "variable" ∈ scope_priority) by in_list.
  split; [exact H1|]. split; [exact H2|].
  exact (session_ids_and_entries rst_path usage_session "variable"
           "flycheck-mode" H1 H2).
Defined.

(** X25: in a build session a directive warns of a duplicate only across
    documents: when [add_target_and_index] gives a warning, the pair was
    registered to a document other than the one being read, and the
    warning, the only one given, carries the path of that document.  A
    second description in the same document is never reported. *)
Theorem session_warns_across_documents doc2path st objtype ot name lineno :
  reachable doc2path st →
  object_types objtype = Some ot →
  let st' :=
    (EmacsLispSymbol.add_target_and_index doc2path objtype name lineno st).2 in
  env_reports st' ≠ env_reports st →
  ∃ other_docname other_objtype,
    lookup_symbol (env_symbols st) name (scope ot)
    = Some (other_docname, other_objtype) ∧
    other_docname ≠ env_docname st ∧
    env_reports st'
    = env_reports st ++
      [mkReport ("duplicate object description of " +:+ name +:+ ", "
                 +:+ "other instance in " +:+ doc2path other_docname) lineno].
Proof.
  intros Hreach Hot. simpl.
  assert (own_entries_noted st) as Hinv.
  { revert st Hreach. apply (run_invariant doc2path own_entries_noted).
    - intros n s' k Hk. unfold lookup_symbol in Hk. simpl in Hk.
      by rewrite lookup_empty in Hk.
    - apply own_entries_noted_step. }
  destruct (decide (make_target (scope ot) name ∈ doc_ids st))
    as [Hseen|Hfresh].
  - by rewrite (add_target_and_index_seen doc2path objtype ot).
  - rewrite (add_target_and_index_fresh doc2path objtype ot) by done. simpl.
    destruct (lookup_symbol (env_symbols st) name (scope ot))
      as [[other k]|] eqn:Hl; [|done].
    intros _. exists other, k. split_and!; [done | | done].
    intros ->. apply Hfresh. by eapply Hinv.
Qed.

Lemma session_warns_across_documents_witness :
  let ot := mkObjType "function" ["function"] "function" 0 in
  reachable rst_path usage_then_index ∧
  object_types "function" = Some ot ∧
  let st' :=
    (EmacsLispSymbol.add_target_and_index rst_path "function" "flycheck-mode"
       5 usage_then_index).2 in
  env_reports st' ≠ env_reports usage_then_index ∧
  ∃ other_docname other_objtype,
    lookup_symbol (env_symbols usage_then_index) "flycheck-mode" (scope ot)
    = Some (other_docname, other_objtype) ∧
    other_docname ≠ env_docname usage_then_index ∧
    env_reports st'
    = env_reports usage_then_index ++
      [mkReport ("duplicate object description of " +:+ "flycheck-mode"
                 +:+ ", " +:+ "other instance in " +:+ rst_path other_docname)
         5].
Proof.
  pose (ot := mkObjType "function" ["function"] "function" 0).
  assert (H1 : reachable rst_path usage_then_index) by (by eexists).
  assert (H2 : object_types "function" = Some ot) by reflexivity.
  assert (H3 : env_reports
                 (EmacsLispSymbol.add_target_and_index rst_path "function"
                    "flycheck-mode" 5 usage_then_index).2
               ≠ env_reports usage_then_index)
    by (vm_compute; discriminate).
  split; [exact H1|]. split; [exact H2|]. split; [exact H3|].
  exact (session_warns_across_documents rst_path usage_then_index "function"
           ot "flycheck-mode" 5 H1 H2 H3).
Defined.

(** X26: on the registry of a build session [resolve_xref] never raises
    [ValueError]; the exceptions it raises are [KeyError] for a target
    that is no key of the registry and [KeyError] for a kind that is no
    object type, which includes the generic kind on a target with fewer
    than two scopes. *)
Theorem session_resolve_xref_errors doc2path repr st fromdoc objtype target
    line content e :
  reachable doc2path st →
  (resolve_xref repr (env_symbols st) fromdoc objtype target line content).1
  = Raise e →
  (e = KeyError target ∧ env_symbols st !! target = None) ∨
  (e = KeyError objtype ∧ object_types objtype = None ∧
   ∃ scopes : scopes_dict,
     env_symbols st !! target = Some scopes ∧
     (objtype = "symbol" → (size scopes ≤ 1)%nat)).
Proof.
  intros Hreach. unfold resolve_xref.
  destruct (env_symbols st !! target) as [scopes|] eqn:Hsym; simpl.
  - destruct (String.eqb objtype "symbol") eqn:Hobj; simpl.
    + apply String.eqb_eq in Hobj as ->.
      destruct (1 <? size scopes)%nat eqn:Hsize; simpl.
      * apply Nat.ltb_lt in Hsize.
        destruct (first_scope scopes) as [chosen|] eqn:Hfirst.
        -- destruct (first_scope_Some _ _ Hfirst)
             as (earlier & later & Hprio & [[docname k] Hchosen] & _).
           assert (chosen ∈ scope_priority) as Hin.
           { rewrite Hprio. apply elem_of_app. right. by left. }
           rewrite (scope_priority_truthy _ Hin). simpl.
           by rewrite Hchosen.
        -- exfalso. assert (scopes ≠ ∅) as Hne.
           { intros ->. rewrite map_size_empty in Hsize. lia. }
           apply map_choose in Hne as (s & v & Hs).
           assert (s ∈ scope_priority) as Hin.
           { eapply (reachable_scopes_known doc2path st target scopes s);
               [done | done | by rewrite Hs]. }
           rewrite (proj1 (first_scope_None scopes) Hfirst s Hin) in Hs.
           done.
      * apply Nat.ltb_ge in Hsize. intros [= <-]. right.
        split_and!; [done | done |]. exists scopes. split; [done|]. lia.
    + apply String.eqb_neq in Hobj. unfold object_types_getitem.
      destruct (object_types objtype) as [ot|] eqn:Hot; simpl.
      * by destruct (scopes !! scope ot) as [[??]|].
      * intros [= <-]. right. split_and!; [done | done |].
        exists scopes. split; [done|]. done.
  - intros [= <-]. by left.
Qed.

Lemma session_resolve_xref_errors_witness :
  reachable rst_path usage_then_index ∧
  (resolve_xref show_scopes (env_symbols usage_then_index) "index" "symbol"
     "flycheck-mode" None "flycheck-mode").1
  = Raise (KeyError "symbol") ∧
  ((KeyError "symbol" = KeyError "flycheck-mode" ∧
    env_symbols usage_then_index !! "flycheck-mode" = None) ∨
   (KeyError "symbol" = KeyError "symbol" ∧ object_types "symbol" = None ∧
    ∃ scopes : scopes_dict,
      env_symbols usage_then_index !! "flycheck-mode" = Some scopes ∧
      ("symbol" = "symbol" → (size scopes ≤ 1)%nat))).
Proof.
  assert (H1 : reachable rst_path usage_then_index) by (by eexists).
  assert (H2 : (resolve_xref show_scopes (env_symbols usage_then_index)
                  "index" "symbol" "flycheck-mode" None "flycheck-mode").1
               = Raise (KeyError "symbol")) by (vm_compute; reflexivity).
  split; [exact H1|]. split; [exact H2|].
  exact (session_resolve_xref_errors rst_path show_scopes usage_then_index
           "index" "symbol" "flycheck-mode" None "flycheck-mode" _ H1 H2).
Defined.
